(** * Commands Viewer: the command store and its virtual file system

    A shallow embedding of [commandFs.ts] (class [CommandFileSystemProvider])
    and of the import path of [extension.ts] (class [CommandsProvider]),
    together with the properties the specification states about them.

    Conventions of the embedding:
    - a JavaScript string is the list of its UTF-16 code units ([JS.str]);
    - a [Uint8Array] is a [list byte];
    - the provider's [Map<string, CommandItem>] is an association list kept in
      insertion order with pairwise distinct keys, as a JavaScript [Map] is
      ([JSMap]);
    - the methods of the provider run in a state-and-exception monad over the
      provider's fields: the map [_commands], the [customCommands] slot of the
      global state and the log of the batches fired through [_emitter]. *)

From Stdlib.Strings Require Import String Ascii Byte.
From Stdlib Require Import List Bool Arith NArith ZArith Lia Zify.
From Stdlib Require Decimal DecimalNat DecimalString.
Import ListNotations.

Set Implicit Arguments.

(* ================================================================= *)
(** ** JavaScript strings *)

Module JS.

(** A string value: its UTF-16 code units, in order. *)
Definition str := list N.

(** The string written by an ASCII literal. *)
Definition lit (s : string) : str :=
  map N_of_ascii (list_ascii_of_string s).

(** [a === b] on strings. *)
Fixpoint eqb (a b : str) : bool :=
  match a, b with
  | [], [] => true
  | x :: a', y :: b' => N.eqb x y && eqb a' b'
  | _, _ => false
  end.

(** [a === b] on values of type [string | undefined]. *)
Definition opt_eqb (a b : option str) : bool :=
  match a, b with
  | None, None => true
  | Some x, Some y => eqb x y
  | _, _ => false
  end.

(** Truthiness of a string: every string but the empty one. *)
Definition truthy (s : str) : bool :=
  match s with [] => false | _ :: _ => true end.

(** Truthiness of a [string | undefined]. *)
Definition opt_truthy (o : option str) : bool :=
  match o with None => false | Some s => truthy s end.

(** [s.substring(start, end)]: both indices are clamped to the length and
    swapped when [start > end]. *)
Definition substring (start end_ : nat) (s : str) : str :=
  let lo := Nat.min start end_ in
  let hi := Nat.max start end_ in
  firstn (hi - lo) (skipn lo s).

(** [s.substring(start)]. *)
Definition substringFrom (start : nat) (s : str) : str := skipn start s.

(** [s.startsWith(p)]. *)
Definition startsWith (s p : str) : bool :=
  eqb (firstn (length p) s) p.

(** [s.endsWith(p)]. *)
Definition endsWith (s p : str) : bool :=
  (length p <=? length s) && eqb (skipn (length s - length p) s) p.

(** The code units [String.prototype.trim] strips: ECMAScript's WhiteSpace
    (TAB, VT, FF, SP, NBSP, ZWNBSP and the Unicode space separators) and
    LineTerminator (LF, CR, LS, PS). *)
Definition isWhiteSpace (c : N) : bool :=
  (N.eqb c 0x09 || N.eqb c 0x0A || N.eqb c 0x0B || N.eqb c 0x0C ||
   N.eqb c 0x0D || N.eqb c 0x20 || N.eqb c 0xA0 || N.eqb c 0x1680 ||
   (N.leb 0x2000 c && N.leb c 0x200A) ||
   N.eqb c 0x2028 || N.eqb c 0x2029 || N.eqb c 0x202F ||
   N.eqb c 0x205F || N.eqb c 0x3000 || N.eqb c 0xFEFF)%bool.

Fixpoint trimStart (s : str) : str :=
  match s with
  | [] => []
  | c :: s' => if isWhiteSpace c then trimStart s' else s
  end.

Definition trimEnd (s : str) : str := rev (trimStart (rev s)).

(** [s.trim()]. *)
Definition trim (s : str) : str := trimEnd (trimStart s).

(** The character class [[a-zA-Z0-9]]. *)
Definition isAlnum (c : N) : bool :=
  ((N.leb 0x61 c && N.leb c 0x7A) ||
   (N.leb 0x41 c && N.leb c 0x5A) ||
   (N.leb 0x30 c && N.leb c 0x39))%bool.

(** The character class [[a-zA-Z0-9_]]. *)
Definition isSlugChar (c : N) : bool := (isAlnum c || N.eqb c 0x5F)%bool.

(** [s.replace(/[^a-zA-Z0-9]/g, '_')]: the pattern has no [u] flag, so it
    is matched code unit by code unit. *)
Definition replaceNonAlnum (s : str) : str :=
  map (fun c => if isAlnum c then c else 0x5F%N) s.

(** Truthiness of [s.match(/^[a-zA-Z0-9_]{1,20}$/)]: without the [m] flag
    the anchors are the two ends of the input. *)
Definition matchSlug (s : str) : bool :=
  ((1 <=? length s) && (length s <=? 20) && forallb isSlugChar s)%bool.

(** The text a template literal gives for a non-negative integer counter:
    its decimal digits. *)
Definition ofNumber (n : nat) : str :=
  lit (DecimalString.NilEmpty.string_of_uint (Nat.to_uint n)).

End JS.

Notation "a +++ b" := (@app N a b) (at level 60, right associativity).

(* ================================================================= *)
(** ** Node's UTF-8 codec for [Buffer] *)

Module Utf8.

Definition byte_of (n : N) : byte :=
  match Byte.of_N (n mod 256) with
  | Some b => b
  | None => x00
  end.

(** U+FFFD, as a code unit and as its three bytes. *)
Definition replacement : N := 0xFFFD%N.
Definition replacement_bytes : list byte := [xef; xbf; xbd].

(** The bytes of one code point. *)
Definition encode_cp (c : N) : list byte :=
  (if c <? 0x80 then [byte_of c]
   else if c <? 0x800 then
     [byte_of (0xC0 + c / 0x40); byte_of (0x80 + c mod 0x40)]
   else if c <? 0x10000 then
     [byte_of (0xE0 + c / 0x1000); byte_of (0x80 + (c / 0x40) mod 0x40);
      byte_of (0x80 + c mod 0x40)]
   else
     [byte_of (0xF0 + c / 0x40000); byte_of (0x80 + (c / 0x1000) mod 0x40);
      byte_of (0x80 + (c / 0x40) mod 0x40); byte_of (0x80 + c mod 0x40)])%N.

Definition isHigh (c : N) : bool := ((0xD800 <=? c) && (c <=? 0xDBFF))%N.
Definition isLow (c : N) : bool := ((0xDC00 <=? c) && (c <=? 0xDFFF))%N.

(** [Buffer.from(s, 'utf8')]: a surrogate pair is one code point, a lone
    surrogate is written as U+FFFD. *)
Fixpoint encode (s : JS.str) : list byte :=
  match s with
  | [] => []
  | c :: rest =>
      if isHigh c then
        match rest with
        | d :: rest' =>
            if isLow d
            then encode_cp (0x10000 + (c - 0xD800) * 0x400 + (d - 0xDC00))%N
                   ++ encode rest'
            else replacement_bytes ++ encode rest
        | [] => replacement_bytes
        end
      else if isLow c then replacement_bytes ++ encode rest
      else encode_cp c ++ encode rest
  end.

(** The decoder's state: continuation bytes still expected, the code point
    gathered so far and the range allowed for the next byte. *)
Record dstate := mkDstate
  { remaining : nat; codepoint : N; lower : N; upper : N }.

Definition dinit : dstate := mkDstate 0 0 0x80 0xBF.

(** The code units of a decoded code point. *)
Definition emit (c : N) : JS.str :=
  (if c <? 0x10000 then [c]
   else [0xD800 + (c - 0x10000) / 0x400; 0xDC00 + (c - 0x10000) mod 0x400])%N.

(** A byte read when no sequence is open. *)
Definition start (b : N) : dstate * JS.str :=
  (if b <=? 0x7F then (dinit, [b])
   else if (0xC2 <=? b) && (b <=? 0xDF) then
     (mkDstate 1 (N.land b 0x1F) 0x80 0xBF, [])
   else if (0xE0 <=? b) && (b <=? 0xEF) then
     (mkDstate 2 (N.land b 0x0F)
        (if b =? 0xE0 then 0xA0 else 0x80)
        (if b =? 0xED then 0x9F else 0xBF), [])
   else if (0xF0 <=? b) && (b <=? 0xF4) then
     (mkDstate 3 (N.land b 0x07)
        (if b =? 0xF0 then 0x90 else 0x80)
        (if b =? 0xF4 then 0x8F else 0xBF), [])
   else (dinit, [replacement]))%N.

(** One byte of input: a byte outside the expected range closes the open
    sequence with U+FFFD and is then read afresh. *)
Definition step (st : dstate) (b : N) : dstate * JS.str :=
  match remaining st with
  | O => start b
  | S r =>
      if ((lower st <=? b) && (b <=? upper st))%N then
        let c := N.lor (N.shiftl (codepoint st) 6) (N.land b 0x3F) in
        match r with
        | O => (dinit, emit c)
        | S _ => (mkDstate r c 0x80 0xBF, [])
        end
      else
        let '(st', out) := start b in (st', replacement :: out)
  end.

Fixpoint decode_from (st : dstate) (bs : list byte) : JS.str :=
  match bs with
  | [] => match remaining st with O => [] | S _ => [replacement] end
  | b :: rest =>
      let '(st', out) := step st (Byte.to_N b) in
      out ++ decode_from st' rest
  end.

(** [Buffer.from(bytes).toString('utf8')]: ill-formed input is decoded with
    U+FFFD in place of each maximal ill-formed part. *)
Definition decode (bs : list byte) : JS.str := decode_from dinit bs.

End Utf8.

(* ================================================================= *)
(** ** JavaScript [Map] with string keys *)

Module JSMap.
Section WithValue.
Variable V : Type.

(** The entries in insertion order. *)
Definition t := list (JS.str * V).

Definition empty : t := [].

Fixpoint get (k : JS.str) (m : t) : option V :=
  match m with
  | [] => None
  | (k', v) :: m' => if JS.eqb k' k then Some v else get k m'
  end.

Fixpoint has (k : JS.str) (m : t) : bool :=
  match m with
  | [] => false
  | (k', _) :: m' => if JS.eqb k' k then true else has k m'
  end.

(** [m.set(k, v)]: an entry already there keeps its place and takes the
    new value, a new entry goes last. *)
Fixpoint set (k : JS.str) (v : V) (m : t) : t :=
  match m with
  | [] => [(k, v)]
  | (k', v') :: m' =>
      if JS.eqb k' k then (k', v) :: m' else (k', v') :: set k v m'
  end.

(** [m.delete(k)]: the entry under [k], if any, is taken out; the others
    keep their order. *)
Definition delete (k : JS.str) (m : t) : t :=
  filter (fun e => negb (JS.eqb (fst e) k)) m.

Definition keys (m : t) : list JS.str := map fst m.
Definition values (m : t) : list V := map snd m.

(** What every [Map] satisfies: no key occurs twice. *)
Definition wf (m : t) : Prop := NoDup (keys m).

End WithValue.
End JSMap.

(* ================================================================= *)
(** ** Command records and their file names *)

(** [interface CommandItem { name?: string; command: string }] *)
Record CommandItem := mkItem
  { name : option JS.str; command : JS.str }.

(** [item.name && item.name.trim() !== ''] *)
Definition hasDisplayName (item : CommandItem) : bool :=
  match name item with
  | None => false
  | Some n => JS.truthy n && negb (JS.eqb (JS.trim n) [])
  end.

(** The expression both [generateFileName] and the loop of [addCommandItem]
    compute:
    [item.name && item.name.trim() !== '' ? item.name
       : item.command.substring(0, 20).replace(/[^a-zA-Z0-9]/g, '_')]. *)
Definition baseNameOf (item : CommandItem) : JS.str :=
  if hasDisplayName item
  then match name item with Some n => n | None => [] end
  else JS.replaceNonAlnum (JS.substring 0 20 (command item)).

Definition dotCmd : JS.str := JS.lit ".cmd".

Definition generateFileName (item : CommandItem) : JS.str :=
  let baseName := baseNameOf item in
  let baseName :=
    if length baseName =? 0 then JS.lit "untitled_command" else baseName in
  baseName +++ dotCmd.

(** [`${baseName}-${counter}.cmd`] *)
Definition numbered (baseName : JS.str) (counter : nat) : JS.str :=
  baseName +++ JS.lit "-" +++ JS.ofNumber counter +++ dotCmd.

(** [name.endsWith('.cmd') ? name.substring(0, name.length - 4) : name] *)
Definition namePartOf (fileName : JS.str) : JS.str :=
  if JS.endsWith fileName dotCmd
  then JS.substring 0 (length fileName - 4) fileName
  else fileName.

(** The test both [writeFile] and [rename] apply to a base name:
    [!namePart.match(/^[a-zA-Z0-9_]{1,20}$/) && !text.startsWith(namePart)]. *)
Definition looksExplicit (namePart text : JS.str) : bool :=
  negb (JS.matchSlug namePart) && negb (JS.startsWith text namePart).

(* ================================================================= *)
(** ** The provider's state and the monad its methods run in *)

Record Uri := mkUri { scheme : JS.str; path : JS.str }.

(** The URI an event carries: the one the caller passed, or the result of
    [vscode.Uri.parse] on a text built by the provider. *)
Inductive UriRef :=
| GivenUri (u : Uri)
| ParsedUri (text : JS.str).

Inductive FileChangeType := Changed | Created | Deleted.

Record FileChangeEvent := mkEvent
  { ev_type : FileChangeType; ev_uri : UriRef }.

Inductive FileType := File | Directory.

Record FileStat := mkStat
  { st_type : FileType; ctime : N; mtime : N; size : nat }.

(** What a method can throw: the four [vscode.FileSystemError]s in use, and
    the [TypeError] of a property read on [undefined]. *)
Inductive Exception :=
| FileNotFound (uri : Uri)
| FileExists (uri : Uri)
| FileNotADirectory (uri : Uri)
| NoPermissions (message : JS.str)
| TypeError.

Record Provider := mkProvider
  { _commands : JSMap.t CommandItem;
    (** the [customCommands] slot of [context.globalState], unset at first *)
    globalState : option (list CommandItem);
    (** the batches fired through [_emitter], oldest first *)
    fired : list (list FileChangeEvent) }.

Inductive Outcome (A : Type) :=
| Returned (a : A)
| Thrown (e : Exception)
| OutOfFuel.
Arguments Returned {A} a.
Arguments Thrown {A} e.
Arguments OutOfFuel {A}.

Definition M (A : Type) : Type := Provider -> Outcome A * Provider.

Definition ret {A} (a : A) : M A := fun p => (Returned a, p).

Definition bind {A B} (c : M A) (k : A -> M B) : M B :=
  fun p =>
    match c p with
    | (Returned a, p') => k a p'
    | (Thrown e, p') => (Thrown e, p')
    | (OutOfFuel, p') => (OutOfFuel, p')
    end.

Definition throw {A} (e : Exception) : M A := fun p => (Thrown e, p).

Definition diverge {A} : M A := fun p => (OutOfFuel, p).

Definition gets {A} (f : Provider -> A) : M A := fun p => (Returned (f p), p).

Definition modify (f : Provider -> Provider) : M unit :=
  fun p => (Returned tt, f p).

(** [try { c } catch (error) { h }] *)
Definition try_catch {A} (c : M A) (h : Exception -> M A) : M A :=
  fun p =>
    match c p with
    | (Thrown e, p') => h e p'
    | r => r
    end.

Declare Scope fs_scope.
Delimit Scope fs_scope with fs.
Notation "x <- c ;; k" := (bind c (fun x => k))
  (at level 61, c at next level, right associativity) : fs_scope.
Notation "c ;; k" := (bind c (fun _ => k))
  (at level 61, right associativity) : fs_scope.
Local Open Scope fs_scope.

(** [xs.forEach(f)], and [for (const x of xs) { await f(x) }]. *)
Fixpoint forEach {A} (xs : list A) (f : A -> M unit) : M unit :=
  match xs with
  | [] => ret tt
  | x :: xs' => f x ;; forEach xs' f
  end.

Definition outcome {A} (r : Outcome A * Provider) : Outcome A := fst r.
Definition after {A} (r : Outcome A * Provider) : Provider := snd r.

(** The primitive effects on the three fields. *)
Definition commands_update (f : JSMap.t CommandItem -> JSMap.t CommandItem)
  : M unit :=
  modify (fun p => mkProvider (f (_commands p)) (globalState p) (fired p)).

Definition globalState_get : M (list CommandItem) :=
  gets (fun p => match globalState p with Some l => l | None => [] end).

(** [await this._context.globalState.update('customCommands', l)], taken to
    resolve. A backend that rejects the update is outside this model: in the
    source the methods change the map before they await the update, so a
    rejection would be thrown with the map already changed. *)
Definition globalState_update (l : list CommandItem) : M unit :=
  modify (fun p => mkProvider (_commands p) (Some l) (fired p)).

Definition fire (batch : list FileChangeEvent) : M unit :=
  modify (fun p => mkProvider (_commands p) (globalState p)
                     (fired p ++ [batch])).

(* ================================================================= *)
(** ** [CommandFileSystemProvider] *)

Definition COMMAND_FILE_SCHEME : JS.str := JS.lit "commandfile".

Definition loadCommandsFromGlobalState : M unit :=
  storedCommands <- globalState_get ;;
  commands_update (fun _ => JSMap.empty CommandItem) ;;
  forEach storedCommands (fun cmd =>
    let fileName := generateFileName cmd in
    commands_update (JSMap.set fileName cmd)).

(** [new CommandFileSystemProvider(context)], for a context whose
    [customCommands] slot holds [stored]. *)
Definition newProvider (stored : option (list CommandItem)) : Provider :=
  after (loadCommandsFromGlobalState (mkProvider (JSMap.empty _) stored [])).

Definition saveCommandsToGlobalState : M unit :=
  commandsArray <- gets (fun p => JSMap.values (_commands p)) ;;
  globalState_update commandsArray ;;
  fire [mkEvent Changed (ParsedUri (COMMAND_FILE_SCHEME +++ JS.lit ":/"))].

(** [this._commands.get(fileName)!] followed by a property read. *)
Definition commands_get_bang (fileName : JS.str) : M CommandItem :=
  found <- gets (fun p => JSMap.get fileName (_commands p)) ;;
  match found with
  | Some item => ret item
  | None => throw TypeError
  end.

Definition commands_has (fileName : JS.str) : M bool :=
  gets (fun p => JSMap.has fileName (_commands p)).

(** [stat]; the two readings of [Date.now()] are given by the caller. *)
Definition stat (ctimeNow mtimeNow : N) (uri : Uri) : M FileStat :=
  if JS.eqb (path uri) (JS.lit "/") then
    ret (mkStat Directory ctimeNow mtimeNow 0)
  else
    let fileName := JS.substringFrom 1 (path uri) in
    present <- commands_has fileName ;;
    if (present : bool) then
      item <- commands_get_bang fileName ;;
      let contentBuffer := Utf8.encode (command item) in
      ret (mkStat File ctimeNow mtimeNow (length contentBuffer))
    else throw (FileNotFound uri).

Definition readDirectory (uri : Uri) : M (list (JS.str * FileType)) :=
  if JS.eqb (path uri) (JS.lit "/") then
    ks <- gets (fun p => JSMap.keys (_commands p)) ;;
    ret (map (fun key => (key, File)) ks)
  else throw (FileNotADirectory uri).

Definition readFile (uri : Uri) : M (list byte) :=
  let fileName := JS.substringFrom 1 (path uri) in
  present <- commands_has fileName ;;
  if (present : bool) then
    item <- commands_get_bang fileName ;;
    ret (Utf8.encode (command item))
  else throw (FileNotFound uri).

Record WriteOptions := mkWriteOptions { create : bool; overwrite : bool }.

Definition isDefined {A} (o : option A) : bool :=
  match o with Some _ => true | None => false end.

Definition writeFile (uri : Uri) (content : list byte)
    (options : WriteOptions) : M unit :=
  let fileName := JS.substringFrom 1 (path uri) in
  let newCommandContent := Utf8.decode content in
  existingCommand <- gets (fun p => JSMap.get fileName (_commands p)) ;;
  if negb (create options) && negb (isDefined existingCommand) then
    throw (FileNotFound uri)
  else if isDefined existingCommand && create options
          && negb (overwrite options) then
    throw (FileExists uri)
  else
    let namePart := namePartOf fileName in
    let commandName :=
      if looksExplicit namePart newCommandContent then Some namePart
      else match existingCommand with
           | Some existing =>
               if JS.opt_truthy (name existing) then name existing else None
           | None => None
           end in
    commands_update
      (JSMap.set fileName (mkItem commandName newCommandContent)) ;;
    saveCommandsToGlobalState ;;
    fire [mkEvent Changed (GivenUri uri)].

(** [delete]; the [recursive] option is not read. *)
Definition delete (uri : Uri) (recursive : bool) : M unit :=
  let fileName := JS.substringFrom 1 (path uri) in
  present <- commands_has fileName ;;
  if (present : bool) then
    commands_update (JSMap.delete fileName) ;;
    saveCommandsToGlobalState ;;
    fire [mkEvent Deleted (GivenUri uri)]
  else throw (FileNotFound uri).

Definition rename (oldUri newUri : Uri) (overwrite_ : bool) : M unit :=
  let oldFileName := JS.substringFrom 1 (path oldUri) in
  let newFileName := JS.substringFrom 1 (path newUri) in
  oldPresent <- commands_has oldFileName ;;
  if negb oldPresent then throw (FileNotFound oldUri)
  else
    newPresent <- commands_has newFileName ;;
    if (newPresent : bool) && negb overwrite_ then throw (FileExists newUri)
    else
      oldCommand <- commands_get_bang oldFileName ;;
      let newNamePart := namePartOf newFileName in
      let oldNamePart := namePartOf oldFileName in
      let newCommandName :=
        if negb (JS.eqb newNamePart oldNamePart) then
          if looksExplicit newNamePart (command oldCommand)
          then Some newNamePart
          else if JS.eqb (JS.trim newNamePart) [] then None
          else name oldCommand
        else name oldCommand in
      commands_update (JSMap.delete oldFileName) ;;
      commands_update
        (JSMap.set newFileName (mkItem newCommandName (command oldCommand))) ;;
      saveCommandsToGlobalState ;;
      fire [mkEvent Deleted (GivenUri oldUri);
            mkEvent Created (GivenUri newUri)].

Definition createDirectory (uri : Uri) : M unit :=
  throw (NoPermissions (JS.lit "Directories not supported")).

(** The [while] loop of [addCommandItem]: [uniqueFileName] is the name under
    test and [counter] the next suffix; [fuel] bounds the iterations. *)
Fixpoint uniqueLoop (m : JSMap.t CommandItem) (item : CommandItem)
    (fuel : nat) (uniqueFileName : JS.str) (counter : nat) : option JS.str :=
  if JSMap.has uniqueFileName m then
    match fuel with
    | O => None
    | S fuel' =>
        let baseName := baseNameOf item in
        uniqueLoop m item fuel' (numbered baseName counter) (S counter)
    end
  else Some uniqueFileName.

(** [addCommandItem]; the loop is given one iteration more than the map has
    entries, which [uniqueLoop_total] shows is always enough. *)
Definition addCommandItem (item : CommandItem) : M unit :=
  let fileName := generateFileName item in
  m <- gets _commands ;;
  match uniqueLoop m item (S (length m)) fileName 1 with
  | None => diverge
  | Some uniqueFileName =>
      commands_update (JSMap.set uniqueFileName item) ;;
      saveCommandsToGlobalState ;;
      fire [mkEvent Created
              (ParsedUri (COMMAND_FILE_SCHEME +++ JS.lit ":/"
                            +++ uniqueFileName))]
  end.

(** Where the loop of [addCommandItem] stops, for a map [m]: at the
    generated name when it is free, else at the first free name among
    [numbered (baseNameOf item) 1], [numbered (baseNameOf item) 2], ... The
    base of the numbered names is the loop's own expression [baseNameOf]: it
    has no [untitled_command] fallback, unlike the base of
    [generateFileName]. *)
Definition firstFreeName (m : JSMap.t CommandItem) (item : CommandItem)
    (key : JS.str) : Prop :=
  JSMap.has key m = false /\
  ((JSMap.has (generateFileName item) m = false
    /\ key = generateFileName item)
   \/ (JSMap.has (generateFileName item) m = true
       /\ exists n, 1 <= n /\ key = numbered (baseNameOf item) n
            /\ forall j, 1 <= j < n ->
                 JSMap.has (numbered (baseNameOf item) j) m = true)).

Definition getCommandByFileName (fileName : JS.str) : M (option CommandItem) :=
  gets (fun p => JSMap.get fileName (_commands p)).

Definition getAllCommandItems : M (list CommandItem) :=
  gets (fun p => JSMap.values (_commands p)).

(* ================================================================= *)
(** ** [CommandsProvider.importCommands] *)

(** The message the import ends with. *)
Inductive Notice :=
| NoCommandsFound
| ImportedNew (commandsAdded : nat)
| NoNewCommands
| ImportFailed (e : Exception).

(** [currentCommands.some(existingCmd => existingCmd.name === importedCmd.name
      && existingCmd.command === importedCmd.command)] *)
Definition isDuplicate (currentCommands : list CommandItem)
    (importedCmd : CommandItem) : bool :=
  existsb (fun existingCmd =>
             JS.opt_eqb (name existingCmd) (name importedCmd)
             && JS.eqb (command existingCmd) (command importedCmd))
          currentCommands.

(** The first loop of the import: the records to add, in order, and their
    count. *)
Fixpoint selectNew (currentCommands importedCommands : list CommandItem)
    (newCommands : list CommandItem) (commandsAdded : nat)
  : list CommandItem * nat :=
  match importedCommands with
  | [] => (newCommands, commandsAdded)
  | importedCmd :: rest =>
      if negb (isDuplicate currentCommands importedCmd)
      then selectNew currentCommands rest
             (newCommands ++ [importedCmd]) (S commandsAdded)
      else selectNew currentCommands rest newCommands commandsAdded
  end.

(** [importCommands] from the point where the chosen file has been read,
    parsed and validated as an array of command records. *)
Definition importCommands (importedCommands : list CommandItem) : M Notice :=
  try_catch
    (if length importedCommands =? 0 then ret NoCommandsFound
     else
       currentCommands <- getAllCommandItems ;;
       let '(newCommands, commandsAdded) :=
         selectNew currentCommands importedCommands [] 0 in
       if 0 <? length newCommands then
         forEach newCommands addCommandItem ;;
         ret (ImportedNew commandsAdded)
       else ret NoNewCommands)
    (fun error => ret (ImportFailed error)).

(* ================================================================= *)
(** ** The specification's wording *)

(** The characters of [[A-Za-z0-9]], listed. *)
Definition alnumAlphabet : JS.str :=
  JS.lit "ABCDEFGHIJKLMNOPQRSTUVWXYZabcdefghijklmnopqrstuvwxyz0123456789".

Definition inAlphabet (c : N) : bool := existsb (N.eqb c) alnumAlphabet.

Definition underscore : N := 0x5F%N.

(** A blank name: empty, or white space only. *)
Definition blank (s : JS.str) : bool := forallb JS.isWhiteSpace s.

(** The key of a record as section 3 of the specification derives it: the
    name verbatim if present and non-blank, else the first 20 characters of
    the command with every character outside [[A-Za-z0-9]] replaced by an
    underscore, [untitled_command] if that is empty; then [.cmd]. *)
Definition keyFor_spec (r : CommandItem) : JS.str :=
  let derived :=
    map (fun c => if inAlphabet c then c else underscore)
        (firstn 20 (command r)) in
  let fallback :=
    match derived with
    | [] => JS.lit "untitled_command"
    | _ :: _ => derived
    end in
  let base :=
    match name r with
    | Some n => if blank n then fallback else n
    | None => fallback
    end in
  base +++ JS.lit ".cmd".

(** "1 to 20 alphanumeric or underscore characters". *)
Definition slugPattern (s : JS.str) : Prop :=
  1 <= length s <= 20 /\
  Forall (fun c => inAlphabet c = true \/ c = underscore) s.

(** [text] starts with [prefix]. *)
Definition startsWithText (text prefix : JS.str) : Prop :=
  exists rest, text = prefix +++ rest.

(** The key section 3 of the specification gives a record whose key
    collides: the same base as in [keyFor_spec], fallback included, then
    [-<n>], then [.cmd]. *)
Definition numberedKey_spec (r : CommandItem) (n : nat) : JS.str :=
  let derived :=
    map (fun c => if inAlphabet c then c else underscore)
        (firstn 20 (command r)) in
  let fallback :=
    match derived with
    | [] => JS.lit "untitled_command"
    | _ :: _ => derived
    end in
  let base :=
    match name r with
    | Some nm => if blank nm then fallback else nm
    | None => fallback
    end in
  base +++ JS.lit "-" +++ JS.ofNumber n +++ JS.lit ".cmd".

(** A record with no name and an empty command. *)
Definition untitledItem : CommandItem := mkItem None [].

(** The records an import adds, by the specification's rule: those of the
    file that no record of the store equals in both name and command. *)
Definition notInStore (current : list CommandItem) (c : CommandItem) : Prop :=
  ~ exists e, In e current /\ name e = name c /\ command e = command c.

(* ================================================================= *)
(** ** Scenarios *)

(** A provider started on a context that holds no commands yet. *)
Definition emptyProvider : Provider := newProvider None.

Definition fileUri (p : string) : Uri := mkUri COMMAND_FILE_SCHEME (JS.lit p).

Definition buildItem : CommandItem :=
  mkItem (Some (JS.lit "Build")) (JS.lit "npm run build").

Definition gitStatusItem : CommandItem := mkItem None (JS.lit "git status").

(** The store after adding [Build] and renaming its file to [build.cmd]:
    one entry, key [build.cmd], name [Build]. *)
Definition lowercaseBuildStore : Provider :=
  after (rename (fileUri "/Build.cmd") (fileUri "/build.cmd") false
           (after (addCommandItem buildItem emptyProvider))).

(** The store after adding [Build]: one entry, key [Build.cmd]. *)
Definition buildStore : Provider :=
  after (addCommandItem buildItem emptyProvider).

(** A record whose name is the empty string, as [duplicateCommand] makes one
    when the name prompt is confirmed empty, and the store after adding it:
    one entry, key [ls.cmd]. *)
Definition emptyNameItem : CommandItem := mkItem (Some []) (JS.lit "ls").

Definition emptyNameStore : Provider :=
  after (addCommandItem emptyNameItem emptyProvider).

(** A second record named [Build], and the store after adding both: keys
    [Build.cmd] and [Build-1.cmd]. *)
Definition buildProdItem : CommandItem :=
  mkItem (Some (JS.lit "Build")) (JS.lit "npm run build -- --prod").

Definition twoBuildsStore : Provider :=
  after (addCommandItem buildProdItem buildStore).

(* ================================================================= *)
(** ** [CommandNode] and the tree commands of [CommandsProvider] *)

(** What the constructor of [CommandNode] sets: the record and file name it
    is given, the label, tooltip and description of the tree item, and the
    text of the URI its [vscode.open] command is given. *)
Record CommandNode := mkNode
  { node_item : CommandItem;
    node_fileName : JS.str;
    node_label : JS.str;
    node_tooltip : JS.str;
    node_description : option JS.str;
    node_target : UriRef }.

Definition newCommandNode (item : CommandItem) (fileName : JS.str)
  : CommandNode :=
  let label :=
    if hasDisplayName item
    then match name item with Some n => n | None => [] end
    else command item in
  mkNode item fileName label (command item)
    (if JS.opt_truthy (name item) then Some (command item) else None)
    (ParsedUri (COMMAND_FILE_SCHEME +++ JS.lit ":/" +++ fileName)).

(** [getChildren(element?)]: no children below a node; at the root one node
    per stored record, with the file name rebuilt from the record. *)
Definition getChildren (element : option CommandNode) : M (list CommandNode) :=
  match element with
  | Some _ => ret []
  | None =>
      allCommands <- getAllCommandItems ;;
      ret (map (fun item =>
                  let fileName :=
                    if hasDisplayName item
                    then match name item with Some n => n | None => [] end
                         +++ dotCmd
                    else JS.replaceNonAlnum (JS.substring 0 20 (command item))
                         +++ dotCmd in
                  newCommandNode item fileName)
               allCommands)
  end.

(** [createNewCommand]; the two arguments are what the two input boxes
    return ([None] when dismissed). The second box is not reached when the
    first is dismissed. *)
Definition createNewCommand (commandContent name_ : option JS.str) : M unit :=
  match commandContent with
  | None => ret tt
  | Some content =>
      addCommandItem
        (mkItem (if JS.opt_truthy name_ then name_ else None) content)
  end.

(** [duplicateCommand]; [newName] is what the input box returns. *)
Definition duplicateCommand (node : CommandNode) (newName : option JS.str)
  : M unit :=
  let originalItem := node_item node in
  match newName with
  | None => ret tt
  | Some n => addCommandItem (mkItem (Some n) (command originalItem))
  end.

(* ================================================================= *)
(** ** Notions used by the further properties *)

(** [s.isWellFormed()], for a string of 16-bit code units: no lone
    surrogate. *)
Fixpoint wellFormed (s : JS.str) : bool :=
  match s with
  | [] => true
  | c :: rest =>
      if Utf8.isHigh c then
        match rest with
        | d :: rest' => Utf8.isLow d && wellFormed rest'
        | [] => false
        end
      else negb (Utf8.isLow c) && (c <? 0x10000)%N && wellFormed rest
  end.

(** A Unicode scalar value. *)
Definition scalar (c : N) : Prop :=
  (c < 0xD800 \/ 0xE000 <= c < 0x110000)%N.

(** The persisted snapshot holds exactly the records of the map. *)
Definition inSync (p : Provider) : Prop :=
  globalState p = Some (JSMap.values (_commands p)).

(** What holds of a mutating method run on [p]: if it returned, the
    snapshot has been rewritten from the map; if it threw [FileNotFound] or
    [FileExists], it left the provider as it was. *)
Definition persistsOrRefuses (p : Provider) (r : Outcome unit * Provider)
  : Prop :=
  (outcome r = Returned tt -> inSync (after r)) /\
  (forall uri,
      outcome r = Thrown (FileNotFound uri)
      \/ outcome r = Thrown (FileExists uri) ->
      after r = p).

(** Every entry is filed under the name generated from its record. *)
Definition keyedByName (m : JSMap.t CommandItem) : Prop :=
  Forall (fun e => fst e = generateFileName (snd e)) m.

(** The batch [saveCommandsToGlobalState] fires. *)
Definition rootChanged : list FileChangeEvent :=
  [mkEvent Changed (ParsedUri (COMMAND_FILE_SCHEME +++ JS.lit ":/"))].

(** A few more stores: [Build] and [git status] added in that order. *)
Definition twoCommandsStore : Provider :=
  after (addCommandItem gitStatusItem buildStore).

(* ================================================================= *)
(** * Properties *)

(** ** Strings *)

Lemma JS_eqb_eq (a b : JS.str) : JS.eqb a b = true <-> a = b.
Proof.
  revert b; induction a as [|x a IH]; intros [|y b]; simpl;
    try (split; [discriminate | discriminate]); try tauto.
  rewrite andb_true_iff, N.eqb_eq, IH.
  split; [intros [-> ->]; reflexivity | intros H; inversion H; auto].
Qed.

Lemma JS_eqb_refl (a : JS.str) : JS.eqb a a = true.
Proof. apply JS_eqb_eq; reflexivity. Qed.

Lemma JS_eqb_neq (a b : JS.str) : JS.eqb a b = false <-> a <> b.
Proof.
  rewrite <- JS_eqb_eq. destruct (JS.eqb a b); split; congruence.
Qed.

Lemma JS_opt_eqb_eq (a b : option JS.str) : JS.opt_eqb a b = true <-> a = b.
Proof.
  destruct a as [x|], b as [y|]; simpl; try (split; congruence).
  rewrite JS_eqb_eq; split; congruence.
Qed.

Lemma JS_lit_inj (s t : string) : JS.lit s = JS.lit t -> s = t.
Proof.
  unfold JS.lit; intros H.
  rewrite <- (string_of_list_ascii_of_string s),
          <- (string_of_list_ascii_of_string t).
  f_equal.
  revert H; generalize (list_ascii_of_string s) (list_ascii_of_string t).
  induction l as [|a l IH]; intros [|b l']; simpl; try discriminate; auto.
  intros H; inversion H as [[Hab Hl]].
  f_equal; [| now apply IH].
  rewrite <- (ascii_N_embedding a), <- (ascii_N_embedding b); congruence.
Qed.

Lemma JS_ofNumber_inj (i j : nat) : JS.ofNumber i = JS.ofNumber j -> i = j.
Proof.
  unfold JS.ofNumber; intros H. apply JS_lit_inj in H.
  apply (f_equal DecimalString.NilEmpty.uint_of_string) in H.
  rewrite !DecimalString.NilEmpty.usu in H.
  inversion H as [H'].
  now apply DecimalNat.Unsigned.to_uint_inj.
Qed.

Lemma numbered_inj (b : JS.str) (i j : nat) :
  numbered b i = numbered b j -> i = j.
Proof.
  unfold numbered; intros H.
  apply app_inv_head in H. apply app_inv_head in H.
  apply app_inv_tail in H. now apply JS_ofNumber_inj.
Qed.

Lemma trimStart_nil (s : JS.str) :
  JS.trimStart s = [] <-> forallb JS.isWhiteSpace s = true.
Proof.
  induction s as [|c s IH]; simpl; [tauto|].
  destruct (JS.isWhiteSpace c); simpl; [exact IH|].
  split; discriminate.
Qed.

Lemma trim_nil (s : JS.str) :
  JS.trim s = [] <-> forallb JS.isWhiteSpace s = true.
Proof.
  unfold JS.trim, JS.trimEnd. split.
  - intros H. apply (f_equal (@List.rev N)) in H.
    rewrite rev_involutive in H; simpl in H.
    apply trimStart_nil in H. rewrite forallb_forall in H.
    destruct (JS.trimStart s) as [|c t] eqn:E.
    + now apply trimStart_nil.
    + (* the part kept by [trimStart] starts with a non-blank *)
      exfalso.
      assert (Hc : JS.isWhiteSpace c = false).
      { clear H. induction s as [|d s IH]; simpl in E; [discriminate|].
        destruct (JS.isWhiteSpace d) eqn:Ed; [now apply IH|].
        inversion E; subst; assumption. }
      rewrite (H c) in Hc; [discriminate|].
      rewrite <- in_rev; now left.
  - intros H. apply trimStart_nil in H. rewrite H. reflexivity.
Qed.

(** ** Maps *)

Section MapFacts.
Variable V : Type.
Implicit Types (m : JSMap.t V) (k : JS.str) (v : V).

Lemma has_get k m : JSMap.has k m = isDefined (JSMap.get k m).
Proof.
  induction m as [|[k' v'] m IH]; simpl; [reflexivity|].
  destruct (JS.eqb k' k); auto.
Qed.

Lemma has_In k m : JSMap.has k m = true <-> In k (JSMap.keys m).
Proof.
  induction m as [|[k' v'] m IH]; simpl; [split; [discriminate | tauto]|].
  destruct (JS.eqb k' k) eqn:E.
  - apply JS_eqb_eq in E; subst; tauto.
  - apply JS_eqb_neq in E; rewrite IH; split; [tauto | intros [H|H]; tauto].
Qed.

Lemma has_false_notin k m : JSMap.has k m = false <-> ~ In k (JSMap.keys m).
Proof.
  rewrite <- has_In. destruct (JSMap.has k m); split; congruence.
Qed.

Lemma set_fresh k v m :
  JSMap.has k m = false -> JSMap.set k v m = m ++ [(k, v)].
Proof.
  induction m as [|[k' v'] m IH]; simpl; [reflexivity|].
  destruct (JS.eqb k' k); [discriminate|].
  intros H; now rewrite IH.
Qed.

Lemma keys_set k v m :
  JSMap.keys (JSMap.set k v m)
  = if JSMap.has k m then JSMap.keys m else JSMap.keys m ++ [k].
Proof.
  unfold JSMap.keys.
  induction m as [|[k' v'] m IH]; simpl; [reflexivity|].
  destruct (JS.eqb k' k); simpl; [reflexivity|].
  rewrite IH. now destruct (JSMap.has k m).
Qed.

Lemma get_set_same k v m : JSMap.get k (JSMap.set k v m) = Some v.
Proof.
  induction m as [|[k' v'] m IH]; simpl.
  - now rewrite JS_eqb_refl.
  - destruct (JS.eqb k' k) eqn:E; simpl; now rewrite E.
Qed.

Lemma get_set_other k k' v m :
  k <> k' -> JSMap.get k' (JSMap.set k v m) = JSMap.get k' m.
Proof.
  intros Hne. induction m as [|[k0 v0] m IH]; simpl.
  - apply JS_eqb_neq in Hne. now rewrite Hne.
  - destruct (JS.eqb k0 k) eqn:E; simpl.
    + apply JS_eqb_eq in E; subst k0.
      apply JS_eqb_neq in Hne. now rewrite Hne.
    + now rewrite IH.
Qed.

Lemma get_delete_same k m : JSMap.get k (JSMap.delete k m) = None.
Proof.
  unfold JSMap.delete.
  induction m as [|[k' v'] m IH]; simpl; [reflexivity|].
  destruct (JS.eqb k' k) eqn:E; simpl; [exact IH|].
  now rewrite E.
Qed.

Lemma get_delete_other k k' m :
  k <> k' -> JSMap.get k' (JSMap.delete k m) = JSMap.get k' m.
Proof.
  intros Hne. unfold JSMap.delete.
  induction m as [|[k0 v0] m IH]; simpl; [reflexivity|].
  destruct (JS.eqb k0 k) eqn:E; simpl.
  - apply JS_eqb_eq in E; subst k0.
    apply JS_eqb_neq in Hne. now rewrite Hne.
  - now rewrite IH.
Qed.

Lemma wf_set k v m : JSMap.wf m -> JSMap.wf (JSMap.set k v m).
Proof.
  unfold JSMap.wf. rewrite keys_set.
  destruct (JSMap.has k m) eqn:E; [auto|].
  intros H. apply NoDup_app; [assumption | repeat constructor; auto |].
  intros x Hx [<-|[]]. now apply has_false_notin in E.
Qed.

Lemma wf_delete k m : JSMap.wf m -> JSMap.wf (JSMap.delete k m).
Proof.
  unfold JSMap.wf, JSMap.keys, JSMap.delete.
  induction m as [|[k' v'] m IH]; simpl; [auto|].
  intros H; inversion H as [|? ? Hnin Hnd]; subst.
  destruct (JS.eqb k' k); simpl; [auto|].
  constructor; [| auto].
  intros Hin; apply Hnin.
  apply in_map_iff in Hin as [e [He Hin]].
  apply filter_In in Hin as [Hin _].
  apply in_map_iff; eauto.
Qed.

Lemma values_app m m' :
  JSMap.values (m ++ m') = JSMap.values m ++ JSMap.values m'.
Proof. apply map_app. Qed.

End MapFacts.

(** ** The loop of [addCommandItem] *)

(** Among the first [length m + 1] numbered names one is free: they are
    pairwise different and the map has only [length m] keys. *)
Lemma numbered_free_exists (m : JSMap.t CommandItem) (base : JS.str) :
  exists j, 1 <= j < 1 + S (length m) /\ JSMap.has (numbered base j) m = false.
Proof.
  set (cands := map (numbered base) (seq 1 (S (length m)))).
  destruct (existsb (fun k => negb (JSMap.has k m)) cands) eqn:E.
  - apply existsb_exists in E as [k [Hin Hk]].
    apply in_map_iff in Hin as [j [<- Hj]].
    apply in_seq in Hj. exists j; split; [lia|].
    now apply negb_true_iff.
  - exfalso.
    assert (Hincl : incl cands (JSMap.keys m)).
    { intros k Hk. apply has_In.
      destruct (JSMap.has k m) eqn:Ek; [reflexivity|].
      assert (existsb (fun k => negb (JSMap.has k m)) cands = true)
        by (apply existsb_exists; exists k; now rewrite Ek).
      congruence. }
    assert (Hnd : NoDup cands).
    { apply NoDup_map_NoDup_ForallPairs; [| apply seq_NoDup].
      intros i j _ _; apply numbered_inj. }
    pose proof (NoDup_incl_length Hnd Hincl) as Hlen.
    unfold cands, JSMap.keys in Hlen.
    rewrite !length_map, length_seq in Hlen. lia.
Qed.

(** With a free name within reach of the fuel, the loop stops at the first
    free name in the order it tries them. *)
Lemma uniqueLoop_first_free (m : JSMap.t CommandItem) (item : CommandItem)
    (fuel : nat) :
  forall (cur : JS.str) (c : nat),
    JSMap.has cur m = false \/
    (exists j, c <= j < c + fuel
               /\ JSMap.has (numbered (baseNameOf item) j) m = false) ->
    exists key,
      uniqueLoop m item fuel cur c = Some key /\
      JSMap.has key m = false /\
      ((JSMap.has cur m = false /\ key = cur) \/
       (JSMap.has cur m = true /\
        exists n, c <= n /\ key = numbered (baseNameOf item) n /\
                  forall j, c <= j < n ->
                    JSMap.has (numbered (baseNameOf item) j) m = true)).
Proof.
  induction fuel as [|fuel IH]; intros cur c Hreach.
  - destruct Hreach as [Hfree | [j [Hj _]]]; [| lia].
    exists cur. simpl. rewrite Hfree. auto.
  - simpl. destruct (JSMap.has cur m) eqn:Ecur.
    + destruct Hreach as [Hfree | [j [Hj Hfree]]]; [discriminate|].
      destruct (IH (numbered (baseNameOf item) c) (S c))
        as [key [Hrun [Hkey Hcase]]].
      { destruct (Nat.eq_dec j c) as [->|Hne]; [now left|].
        right; exists j; split; [lia | assumption]. }
      exists key. split; [exact Hrun|]. split; [exact Hkey|].
      right; split; [reflexivity|].
      destruct Hcase as [[Hc ->] | [Hc [n [Hn [-> Hbelow]]]]].
      * exists c; repeat split; [lia | intros j' Hj'; lia].
      * exists n; repeat split; [lia|].
        intros j' Hj'. destruct (Nat.eq_dec j' c) as [->|Hne];
          [assumption | apply Hbelow; lia].
    + exists cur; auto.
Qed.

(** The loop ends within the fuel [addCommandItem] gives it. *)
Lemma uniqueLoop_total (m : JSMap.t CommandItem) (item : CommandItem) :
  exists key,
    uniqueLoop m item (S (length m)) (generateFileName item) 1 = Some key /\
    firstFreeName m item key.
Proof.
  apply uniqueLoop_first_free. right. apply numbered_free_exists.
Qed.

(** One call of [addCommandItem]: it returns, the record goes last under a
    name that was free, the snapshot is rewritten and two batches are fired;
    the name is the generated one or the first free numbered one. *)
Lemma addCommandItem_run (p : Provider) (item : CommandItem) :
  exists key,
    addCommandItem item p
    = (Returned tt,
       mkProvider (_commands p ++ [(key, item)])
         (Some (JSMap.values (_commands p) ++ [item]))
         (fired p ++
          [[mkEvent Changed (ParsedUri (COMMAND_FILE_SCHEME +++ JS.lit ":/"))]]
          ++ [[mkEvent Created
                 (ParsedUri (COMMAND_FILE_SCHEME +++ JS.lit ":/" +++ key))]]))
    /\ firstFreeName (_commands p) item key.
Proof.
  destruct (uniqueLoop_total (_commands p) item) as [key [Hrun Hfirst]].
  exists key. split; [| assumption].
  unfold addCommandItem, bind at 1, gets; cbv beta iota zeta.
  rewrite Hrun. unfold bind, commands_update, fire, modify; simpl.
  rewrite (set_fresh _ _ _ (proj1 Hfirst)), values_app, <- app_assoc.
  reflexivity.
Qed.

Lemma addCommandItem_firstFree (p : Provider) (item : CommandItem) :
  exists key,
    outcome (addCommandItem item p) = Returned tt /\
    _commands (after (addCommandItem item p)) = _commands p ++ [(key, item)] /\
    firstFreeName (_commands p) item key.
Proof.
  destruct (addCommandItem_run p item) as [key [Hrun Hfirst]].
  exists key. rewrite Hrun. repeat split; apply Hfirst.
Qed.

Lemma addCommandItem_wf (p : Provider) (item : CommandItem) :
  JSMap.wf (_commands p) ->
  JSMap.wf (_commands (after (addCommandItem item p))).
Proof.
  intros Hwf.
  destruct (addCommandItem_firstFree p item) as [key [_ [-> [Hfree _]]]].
  rewrite <- (set_fresh _ _ _ Hfree). now apply wf_set.
Qed.

Lemma forEach_addCommandItem (items : list CommandItem) :
  forall p,
    outcome (forEach items addCommandItem p) = Returned tt /\
    (JSMap.wf (_commands p) ->
     JSMap.wf (_commands (after (forEach items addCommandItem p)))) /\
    exists keys,
      length keys = length items /\
      _commands (after (forEach items addCommandItem p))
      = _commands p ++ combine keys items.
Proof.
  induction items as [|item items IH]; intros p; simpl.
  - repeat split; auto. exists []; simpl. now rewrite app_nil_r.
  - destruct (addCommandItem_run p item) as [key [Hrun _]].
    pose proof (addCommandItem_wf p item) as Hwf1.
    unfold bind. rewrite Hrun in *. simpl in Hwf1.
    match goal with |- context [forEach items addCommandItem ?q] =>
      destruct (IH q) as [Hout [Hwf [keys [Hlen Hcmds]]]] end.
    split; [exact Hout|]. split; [auto|].
    exists (key :: keys). split; [simpl; now rewrite Hlen|].
    rewrite Hcmds. cbn [_commands combine]. now rewrite <- app_assoc.
Qed.

(** ** C2: adding a second [Build] *)

(** C2, as stated, fails: on the store whose one entry has key [build.cmd]
    and name [Build], adding [{name: "Build", command: "npm run build"}]
    files the new record under [Build.cmd]; nothing is filed under
    [Build-1.cmd], because the two keys differ in case and do not collide. *)
Lemma addCommandItem_build_lowercase_counterexample :
  JSMap.get (JS.lit "build.cmd") (_commands lowercaseBuildStore)
  = Some buildItem /\
  JSMap.keys (_commands (after (addCommandItem buildItem lowercaseBuildStore)))
  = [JS.lit "build.cmd"; JS.lit "Build.cmd"] /\
  JSMap.get (JS.lit "Build-1.cmd")
    (_commands (after (addCommandItem buildItem lowercaseBuildStore)))
  = None.
Proof. repeat split; vm_compute; reflexivity. Qed.

(** C2, amended: when the store has an entry at key [Build.cmd] and none at
    [Build-1.cmd], [addCommandItem] of a record named [Build] returns and
    files the record, last, under [Build-1.cmd]. *)
Theorem addCommandItem_Build_collision (p : Provider) (cmd : JS.str) :
  JSMap.has (JS.lit "Build.cmd") (_commands p) = true ->
  JSMap.has (JS.lit "Build-1.cmd") (_commands p) = false ->
  let item := mkItem (Some (JS.lit "Build")) cmd in
  outcome (addCommandItem item p) = Returned tt /\
  _commands (after (addCommandItem item p))
  = _commands p ++ [(JS.lit "Build-1.cmd", item)].
Proof.
  intros Htaken Hfree item.
  destruct (addCommandItem_firstFree p item)
    as [key [Hout [Hcmds [_ Hcase]]]].
  split; [exact Hout|]. rewrite Hcmds. do 3 f_equal.
  change (generateFileName item) with (JS.lit "Build.cmd") in Hcase.
  change (baseNameOf item) with (JS.lit "Build") in Hcase.
  destruct Hcase as [[Hno _] | [_ [n [Hn [-> Hbelow]]]]]; [congruence|].
  destruct (Nat.eq_dec n 1) as [->|Hne]; [reflexivity|].
  specialize (Hbelow 1 ltac:(lia)).
  change (numbered (JS.lit "Build") 1) with (JS.lit "Build-1.cmd") in Hbelow.
  congruence.
Qed.

Lemma addCommandItem_Build_collision_witness :
  let p := after (addCommandItem buildItem emptyProvider) in
  outcome (addCommandItem buildItem p) = Returned tt /\
  _commands (after (addCommandItem buildItem p))
  = _commands p ++ [(JS.lit "Build-1.cmd", buildItem)].
Proof.
  apply (addCommandItem_Build_collision
           (after (addCommandItem buildItem emptyProvider))
           (JS.lit "npm run build")); reflexivity.
Defined.

(** ** Sequences of [addCommandItem] *)

(** From a store whose keys are pairwise distinct, any sequence of
    [addCommandItem] calls returns and leaves the keys pairwise distinct,
    one new key per call; and each call, on any store, files its record
    where the loop stops: under the generated name when that is free, else
    under the first free name numbered from the loop's own base, which has
    no [untitled_command] fallback. *)
Theorem addCommandItem_keys_distinct (p : Provider)
    (items : list CommandItem) :
  JSMap.wf (_commands p) ->
  (outcome (forEach items addCommandItem p) = Returned tt /\
   NoDup (JSMap.keys (_commands (after (forEach items addCommandItem p)))) /\
   length (JSMap.keys (_commands (after (forEach items addCommandItem p))))
   = length (JSMap.keys (_commands p)) + length items) /\
  (forall (q : Provider) (item : CommandItem),
      exists key,
        outcome (addCommandItem item q) = Returned tt /\
        _commands (after (addCommandItem item q))
        = _commands q ++ [(key, item)] /\
        firstFreeName (_commands q) item key).
Proof.
  intros Hwf. split; [| intros q item; apply addCommandItem_firstFree].
  destruct (forEach_addCommandItem items p)
    as [Hout [Hwf' [keys [Hlen Hcmds]]]].
  split; [exact Hout|]. split; [exact (Hwf' Hwf)|].
  rewrite Hcmds. unfold JSMap.keys.
  rewrite map_app, length_app, !length_map, length_combine. lia.
Qed.

Lemma addCommandItem_keys_distinct_witness :
  NoDup (JSMap.keys (_commands
           (after (forEach [buildItem; buildItem; gitStatusItem; buildItem]
                     addCommandItem emptyProvider)))).
Proof.
  apply (addCommandItem_keys_distinct emptyProvider
           [buildItem; buildItem; gitStatusItem; buildItem]).
  constructor.
Defined.

(** ** C3: the base of a numbered name *)

(** C3 on the code: a record with no name and an empty command is filed
    under [untitled_command.cmd]; added a second time, its key collides and
    the specification's base with the suffix [-1] gives
    [untitled_command-1.cmd], which is free; the loop, whose copy of the
    base expression leaves the fallback out, files it under [-1.cmd]
    instead. The keys stay distinct. *)
Theorem addCommandItem_suffix_without_fallback :
  let p1 := after (addCommandItem untitledItem emptyProvider) in
  let p2 := after (addCommandItem untitledItem p1) in
  JSMap.keys (_commands p1) = [JS.lit "untitled_command.cmd"] /\
  JSMap.has (generateFileName untitledItem) (_commands p1) = true /\
  numberedKey_spec untitledItem 1 = JS.lit "untitled_command-1.cmd" /\
  JSMap.has (numberedKey_spec untitledItem 1) (_commands p1) = false /\
  outcome (addCommandItem untitledItem p1) = Returned tt /\
  JSMap.keys (_commands p2)
  = [JS.lit "untitled_command.cmd"; JS.lit "-1.cmd"] /\
  JSMap.has (numberedKey_spec untitledItem 1) (_commands p2) = false.
Proof. cbv zeta. repeat (split; [reflexivity|]). reflexivity. Qed.

(** ** C4: the generated file name *)

Lemma isAlnum_inAlphabet (c : N) : JS.isAlnum c = inAlphabet c.
Proof.
  destruct c as [|p]; [reflexivity|].
  do 7 (destruct p as [p|p|]; try reflexivity).
Qed.

Lemma hasDisplayName_blank (n : JS.str) (cmd : JS.str) :
  hasDisplayName (mkItem (Some n) cmd) = negb (blank n).
Proof.
  unfold hasDisplayName, blank; simpl.
  destruct n as [|c n]; [reflexivity|].
  cbn [JS.truthy andb]. f_equal.
  destruct (forallb JS.isWhiteSpace (c :: n)) eqn:E.
  - apply trim_nil in E. rewrite E. reflexivity.
  - apply JS_eqb_neq. intros H. apply trim_nil in H. congruence.
Qed.

Lemma replaceNonAlnum_alphabet (s : JS.str) :
  JS.replaceNonAlnum s
  = map (fun c => if inAlphabet c then c else underscore) s.
Proof.
  unfold JS.replaceNonAlnum. apply map_ext.
  intros c. now rewrite isAlnum_inAlphabet.
Qed.

(** C4: [generateFileName] is a function of the record alone (it takes no
    provider state and returns a string), and for every record its value is
    the key the specification derives: the name verbatim if present and not
    blank, else the first 20 code units of the command with everything
    outside [[A-Za-z0-9]] replaced by an underscore, [untitled_command] if
    that is empty, followed by [.cmd]. For the record with no name and the
    command [git status] the key is [git_status.cmd], which is also the key
    [addCommandItem] files it under in an empty store. *)
Theorem generateFileName_keyFor_spec :
  (forall item : CommandItem, generateFileName item = keyFor_spec item) /\
  generateFileName gitStatusItem = JS.lit "git_status.cmd" /\
  JSMap.keys (_commands (after (addCommandItem gitStatusItem emptyProvider)))
  = [JS.lit "git_status.cmd"].
Proof.
  split; [| split; reflexivity].
  intros [nm cmd]. unfold generateFileName, keyFor_spec, baseNameOf.
  cbn [name command]. f_equal.
  assert (Hderived :
    (if length (JS.replaceNonAlnum (JS.substring 0 20 cmd)) =? 0
     then JS.lit "untitled_command"
     else JS.replaceNonAlnum (JS.substring 0 20 cmd))
    = match map (fun c => if inAlphabet c then c else underscore)
              (firstn 20 cmd) with
      | [] => JS.lit "untitled_command"
      | _ :: _ =>
          map (fun c => if inAlphabet c then c else underscore) (firstn 20 cmd)
      end).
  { rewrite replaceNonAlnum_alphabet.
    change (JS.substring 0 20 cmd) with (firstn 20 cmd).
    now destruct (map _ (firstn 20 cmd)). }
  destruct nm as [n|].
  - rewrite hasDisplayName_blank.
    destruct (blank n) eqn:E; cbn [negb]; [exact Hderived|].
    destruct n as [|c n]; [discriminate | reflexivity].
  - exact Hderived.
Qed.

(** ** The file operations, run on an arbitrary provider *)

Lemma writeFile_run (p : Provider) (uri : Uri) (content : list byte)
    (options : WriteOptions) :
  let fileName := JS.substringFrom 1 (path uri) in
  let existing := JSMap.get fileName (_commands p) in
  let text := Utf8.decode content in
  let commandName :=
    if looksExplicit (namePartOf fileName) text
    then Some (namePartOf fileName)
    else match existing with
         | Some e => if JS.opt_truthy (name e) then name e else None
         | None => None
         end in
  let m' := JSMap.set fileName (mkItem commandName text) (_commands p) in
  writeFile uri content options p =
  if negb (create options) && negb (isDefined existing) then
    (Thrown (FileNotFound uri), p)
  else if isDefined existing && create options && negb (overwrite options) then
    (Thrown (FileExists uri), p)
  else
    (Returned tt,
     mkProvider m' (Some (JSMap.values m'))
       (fired p ++
        [[mkEvent Changed (ParsedUri (COMMAND_FILE_SCHEME +++ JS.lit ":/"))]]
        ++ [[mkEvent Changed (GivenUri uri)]])).
Proof.
  cbv zeta. unfold writeFile, bind at 1, gets; cbv beta iota zeta.
  destruct (negb (create options)
            && negb (isDefined (JSMap.get _ (_commands p))));
    [reflexivity|].
  destruct (isDefined (JSMap.get _ (_commands p)) && create options
            && negb (overwrite options)); [reflexivity|].
  unfold bind, saveCommandsToGlobalState, commands_update,
    globalState_update, fire, modify, gets, bind;
    cbn [_commands globalState fired].
  now rewrite <- app_assoc.
Qed.

Lemma readFile_run (p : Provider) (uri : Uri) :
  readFile uri p =
  match JSMap.get (JS.substringFrom 1 (path uri)) (_commands p) with
  | Some item => (Returned (Utf8.encode (command item)), p)
  | None => (Thrown (FileNotFound uri), p)
  end.
Proof.
  unfold readFile, commands_has, commands_get_bang, bind, gets.
  rewrite has_get.
  destruct (JSMap.get _ (_commands p)) eqn:E; cbn [isDefined];
    [rewrite E|]; reflexivity.
Qed.

Lemma rename_run (p : Provider) (oldUri newUri : Uri) (ov : bool) :
  let oldFileName := JS.substringFrom 1 (path oldUri) in
  let newFileName := JS.substringFrom 1 (path newUri) in
  rename oldUri newUri ov p =
  match JSMap.get oldFileName (_commands p) with
  | None => (Thrown (FileNotFound oldUri), p)
  | Some oldCommand =>
      if JSMap.has newFileName (_commands p) && negb ov then
        (Thrown (FileExists newUri), p)
      else
        let newCommandName :=
          if negb (JS.eqb (namePartOf newFileName) (namePartOf oldFileName))
          then
            if looksExplicit (namePartOf newFileName) (command oldCommand)
            then Some (namePartOf newFileName)
            else if JS.eqb (JS.trim (namePartOf newFileName)) [] then None
            else name oldCommand
          else name oldCommand in
        let m' :=
          JSMap.set newFileName (mkItem newCommandName (command oldCommand))
            (JSMap.delete oldFileName (_commands p)) in
        (Returned tt,
         mkProvider m' (Some (JSMap.values m'))
           (fired p ++
            [[mkEvent Changed
                (ParsedUri (COMMAND_FILE_SCHEME +++ JS.lit ":/"))]]
            ++ [[mkEvent Deleted (GivenUri oldUri);
                 mkEvent Created (GivenUri newUri)]]))
  end.
Proof.
  cbv zeta. unfold rename, commands_has, bind at 1, gets; cbv beta iota zeta.
  rewrite has_get.
  destruct (JSMap.get (JS.substringFrom 1 (path oldUri)) (_commands p))
    as [oldCommand|] eqn:Eold; cbn [isDefined negb]; [| reflexivity].
  unfold bind at 1; cbv beta iota zeta.
  destruct (JSMap.has _ (_commands p) && negb ov); [reflexivity|].
  unfold commands_get_bang, bind at 1, bind at 1, gets; cbv beta iota zeta.
  rewrite Eold.
  unfold ret, bind, saveCommandsToGlobalState, commands_update,
    globalState_update, fire, modify, gets, bind;
    cbn [_commands globalState fired].
  now rewrite <- app_assoc.
Qed.

Lemma delete_run (p : Provider) (uri : Uri) (recursive : bool) :
  let fileName := JS.substringFrom 1 (path uri) in
  delete uri recursive p =
  if JSMap.has fileName (_commands p) then
    let m' := JSMap.delete fileName (_commands p) in
    (Returned tt,
     mkProvider m' (Some (JSMap.values m'))
       (fired p ++
        [[mkEvent Changed (ParsedUri (COMMAND_FILE_SCHEME +++ JS.lit ":/"))]]
        ++ [[mkEvent Deleted (GivenUri uri)]]))
  else (Thrown (FileNotFound uri), p).
Proof.
  cbv zeta. unfold delete, commands_has, bind at 1, gets; cbv beta iota.
  destruct (JSMap.has _ (_commands p)); [| reflexivity].
  unfold bind, saveCommandsToGlobalState, commands_update,
    globalState_update, fire, modify, gets, bind;
    cbn [_commands globalState fired].
  now rewrite <- app_assoc.
Qed.

(** ** C5: when [writeFile] fails *)

(** C5: [writeFile] throws [FileNotFound] exactly when the key is absent and
    [create] is false, throws [FileExists] exactly when the key is present,
    [create] is true and [overwrite] is false, and in every other case
    returns, having set the key to a record whose command is the UTF-8
    decoding of the bytes. *)
Theorem writeFile_failures (p : Provider) (uri : Uri) (content : list byte)
    (options : WriteOptions) :
  let fileName := JS.substringFrom 1 (path uri) in
  let present := JSMap.has fileName (_commands p) in
  let r := writeFile uri content options p in
  ((exists u, outcome r = Thrown (FileNotFound u))
   <-> (present = false /\ create options = false)) /\
  ((exists u, outcome r = Thrown (FileExists u))
   <-> (present = true /\ create options = true
        /\ overwrite options = false)) /\
  ((present = false /\ create options = false)
   \/ (present = true /\ create options = true /\ overwrite options = false)
   \/ (outcome r = Returned tt /\
       exists nm,
         _commands (after r)
         = JSMap.set fileName (mkItem nm (Utf8.decode content)) (_commands p)
         /\ JSMap.get fileName (_commands (after r))
            = Some (mkItem nm (Utf8.decode content)))).
Proof.
  cbv zeta. rewrite writeFile_run; cbv zeta. rewrite has_get.
  destruct (JSMap.get (JS.substringFrom 1 (path uri)) (_commands p)) as [e|];
    destruct options as [[|] [|]]; cbn -[JSMap.set JSMap.get Utf8.decode];
    (split; [split; [intros [u Hu]; try discriminate; auto
                    | intros [H1 H2]; try discriminate; eauto] |]);
    (split; [split; [intros [u Hu]; try discriminate; auto
                    | intros [H1 [H2 H3]]; try discriminate; eauto] |]);
    auto;
    right; right; (split; [reflexivity|]);
    eexists; (split; [reflexivity | apply get_set_same]).
Qed.

(** ** C6: [rename] carries the content over *)

(** C6, as stated, fails for [a = b]: renaming [Build.cmd] onto itself with
    [overwrite] set returns, and the file can still be read afterwards. *)
Lemma rename_onto_itself_counterexample :
  let a := fileUri "/Build.cmd" in
  let r := rename a a true buildStore in
  outcome r = Returned tt /\
  outcome (readFile a (after r))
  = Returned (Utf8.encode (JS.lit "npm run build")) /\
  outcome (readFile a (after r)) <> Thrown (FileNotFound a).
Proof.
  cbv zeta. split; [reflexivity|]. split; [reflexivity|].
  vm_compute; discriminate.
Qed.

(** C6, amended: after a [rename a b] that returned, [readFile b] returns
    exactly the bytes [readFile a] returned before it (the record under the
    new key has the old command text), and, when [a] and [b] name different
    keys, [readFile a] throws [FileNotFound]. *)
Theorem rename_preserves_content (p : Provider) (a b : Uri) (ov : bool) :
  outcome (rename a b ov p) = Returned tt ->
  let p' := after (rename a b ov p) in
  (exists oldCommand newName,
      JSMap.get (JS.substringFrom 1 (path a)) (_commands p) = Some oldCommand
      /\ JSMap.get (JS.substringFrom 1 (path b)) (_commands p')
         = Some (mkItem newName (command oldCommand))) /\
  (exists bytes,
      outcome (readFile a p) = Returned bytes /\
      outcome (readFile b p') = Returned bytes) /\
  (JS.substringFrom 1 (path a) <> JS.substringFrom 1 (path b) ->
   outcome (readFile a p') = Thrown (FileNotFound a)).
Proof.
  cbv zeta. rewrite rename_run; cbv zeta. rewrite !readFile_run.
  destruct (JSMap.get (JS.substringFrom 1 (path a)) (_commands p))
    as [oldCommand|] eqn:Eold; [| discriminate].
  destruct (JSMap.has (JS.substringFrom 1 (path b)) (_commands p) && negb ov);
    [discriminate|].
  intros _. cbn [after snd _commands].
  rewrite get_set_same. cbn [command outcome fst].
  split; [eauto|]. split; [eauto|].
  intros Hne. rewrite get_set_other by congruence.
  now rewrite get_delete_same.
Qed.

Lemma rename_preserves_content_witness :
  let a := fileUri "/Build.cmd" in
  let b := fileUri "/Release build.cmd" in
  outcome (readFile a (after (rename a b false buildStore)))
  = Thrown (FileNotFound a).
Proof.
  apply (rename_preserves_content buildStore (fileUri "/Build.cmd")
           (fileUri "/Release build.cmd") false).
  - reflexivity.
  - vm_compute; discriminate.
Defined.

(** ** C9: renaming a file onto itself *)

(** C9: for a path whose key is in the store, [rename(p, p, {overwrite:
    false})] throws [FileExists] (the test on the new key does not set the
    old key apart), and leaves the provider as it was. *)
Theorem rename_same_path_rejected (p : Provider) (uri : Uri) :
  JSMap.has (JS.substringFrom 1 (path uri)) (_commands p) = true ->
  rename uri uri false p = (Thrown (FileExists uri), p).
Proof.
  intros Hhas. rewrite rename_run; cbv zeta.
  rewrite Hhas. rewrite has_get in Hhas.
  now destruct (JSMap.get _ (_commands p)).
Qed.

Lemma rename_same_path_rejected_witness :
  rename (fileUri "/Build.cmd") (fileUri "/Build.cmd") false buildStore
  = (Thrown (FileExists (fileUri "/Build.cmd")), buildStore).
Proof.
  apply (rename_same_path_rejected buildStore (fileUri "/Build.cmd")).
  reflexivity.
Defined.

(** ** C10: the read operations change nothing *)

Lemma stat_run (p : Provider) (ctimeNow mtimeNow : N) (uri : Uri) :
  stat ctimeNow mtimeNow uri p =
  if JS.eqb (path uri) (JS.lit "/") then
    (Returned (mkStat Directory ctimeNow mtimeNow 0), p)
  else
    match JSMap.get (JS.substringFrom 1 (path uri)) (_commands p) with
    | Some item =>
        (Returned (mkStat File ctimeNow mtimeNow
                     (length (Utf8.encode (command item)))), p)
    | None => (Thrown (FileNotFound uri), p)
    end.
Proof.
  unfold stat. destruct (JS.eqb (path uri) (JS.lit "/")); [reflexivity|].
  unfold commands_has, commands_get_bang, bind, gets.
  rewrite has_get.
  destruct (JSMap.get _ (_commands p)) eqn:E; cbn [isDefined];
    [rewrite E|]; reflexivity.
Qed.

(** C10: [stat], [readFile] and [readDirectory], whether they return or
    throw, leave the provider exactly as it was: the same map, the same
    persisted snapshot and the same log of fired events, so nothing is
    written to the backend and no event is emitted. *)
Theorem reads_leave_provider_unchanged (p : Provider) (uri : Uri)
    (ctimeNow mtimeNow : N) :
  after (stat ctimeNow mtimeNow uri p) = p /\
  after (readFile uri p) = p /\
  after (readDirectory uri p) = p.
Proof.
  rewrite stat_run, readFile_run. unfold readDirectory.
  destruct (JS.eqb (path uri) (JS.lit "/"));
    destruct (JSMap.get _ (_commands p)); auto.
Qed.

(** ** C7: the name [writeFile] stores *)

Lemma matchSlug_slugPattern (s : JS.str) :
  JS.matchSlug s = true <-> slugPattern s.
Proof.
  unfold JS.matchSlug, slugPattern.
  rewrite !andb_true_iff, !Nat.leb_le, forallb_forall, Forall_forall.
  assert (Hc : forall c, JS.isSlugChar c = true
                         <-> (inAlphabet c = true \/ c = underscore)).
  { intros c. unfold JS.isSlugChar, underscore.
    rewrite orb_true_iff, N.eqb_eq, isAlnum_inAlphabet. tauto. }
  split.
  - intros [[H1 H2] H3]. split; [lia|]. intros c Hin. apply Hc; auto.
  - intros [H1 H2]. repeat split; try lia. intros c Hin. apply Hc; auto.
Qed.

Lemma startsWith_startsWithText (text prefix : JS.str) :
  JS.startsWith text prefix = true <-> startsWithText text prefix.
Proof.
  unfold JS.startsWith, startsWithText. rewrite JS_eqb_eq. split.
  - intros H. exists (skipn (length prefix) text).
    rewrite <- H at 1. symmetry; apply firstn_skipn.
  - intros [rest ->].
    induction prefix as [|c prefix IH]; simpl; [reflexivity | now rewrite IH].
Qed.

Lemma looksExplicit_iff (namePart text : JS.str) :
  looksExplicit namePart text = true
  <-> (~ slugPattern namePart /\ ~ startsWithText text namePart).
Proof.
  unfold looksExplicit.
  rewrite andb_true_iff, !negb_true_iff,
    <- matchSlug_slugPattern, <- startsWith_startsWithText.
  destruct (JS.matchSlug namePart), (JS.startsWith text namePart);
    split; intros [H1 H2]; split; congruence.
Qed.

Lemma namePartOf_dotCmd (base : JS.str) : namePartOf (base +++ dotCmd) = base.
Proof.
  unfold namePartOf, JS.endsWith, JS.substring.
  rewrite length_app. change (length dotCmd) with 4.
  replace (length base + 4 - 4) with (length base) by lia.
  assert (Hskip : skipn (length base) (base +++ dotCmd) = dotCmd).
  { induction base as [|c base IH]; simpl; auto. }
  rewrite Hskip, JS_eqb_refl.
  replace (4 <=? length base + 4) with true
    by (symmetry; apply Nat.leb_le; lia).
  cbn [andb Nat.min Nat.max skipn]. rewrite Nat.sub_0_r.
  induction base as [|c base IH]; simpl; [reflexivity|].
  simpl in Hskip. now rewrite IH.
Qed.

(** C7, as stated, fails where the record already at the key has the empty
    string as its name: writing [ls.cmd] in a store whose [ls.cmd] is such a
    record leaves a record with no name, so the name is not preserved. *)
Lemma writeFile_empty_name_counterexample :
  let uri := fileUri "/ls.cmd" in
  let r := writeFile uri (Utf8.encode (JS.lit "ls -l"))
             (mkWriteOptions false true) emptyNameStore in
  JSMap.get (JS.lit "ls.cmd") (_commands emptyNameStore)
  = Some (mkItem (Some []) (JS.lit "ls")) /\
  outcome r = Returned tt /\
  JSMap.get (JS.lit "ls.cmd") (_commands (after r))
  = Some (mkItem None (JS.lit "ls -l")) /\
  (None : option JS.str) <> Some [].
Proof.
  split; [reflexivity|]. split; [reflexivity|]. split; [reflexivity|].
  discriminate.
Qed.

(** C7, amended: when [writeFile] upserts at key [<base>.cmd], the stored
    record has the decoded text as command, and its name is [<base>] when
    [<base>] does not match the pattern of 1 to 20 alphanumeric or
    underscore characters and the text does not start with [<base>];
    otherwise it is the name of the record already at that key when this is
    a non-empty string, and it is left unset in every remaining case (no
    record at the key, or one whose name is unset or the empty string). In
    particular [writeFile('/My Task.cmd', "echo hi", {create: true,
    overwrite: false})] on an empty store leaves the one record
    [{name: "My Task", command: "echo hi"}]. *)
Theorem writeFile_name_rule :
  (forall (p : Provider) (uri : Uri) (content : list byte)
          (options : WriteOptions) (base : JS.str),
      JS.substringFrom 1 (path uri) = base +++ dotCmd ->
      outcome (writeFile uri content options p) = Returned tt ->
      let text := Utf8.decode content in
      let before := JSMap.get (base +++ dotCmd) (_commands p) in
      exists nm,
        JSMap.get (base +++ dotCmd)
          (_commands (after (writeFile uri content options p)))
        = Some (mkItem nm text) /\
        ((~ slugPattern base /\ ~ startsWithText text base) ->
         nm = Some base) /\
        ((slugPattern base \/ startsWithText text base) ->
         (forall existing n,
             before = Some existing -> name existing = Some n -> n <> [] ->
             nm = Some n) /\
         (forall existing,
             before = Some existing ->
             name existing = None \/ name existing = Some [] ->
             nm = None) /\
         (before = None -> nm = None))) /\
  (let r := writeFile (fileUri "/My Task.cmd") (Utf8.encode (JS.lit "echo hi"))
              (mkWriteOptions true false) emptyProvider in
   outcome r = Returned tt /\
   _commands (after r)
   = [(JS.lit "My Task.cmd",
       mkItem (Some (JS.lit "My Task")) (JS.lit "echo hi"))]).
Proof.
  split; [| split; reflexivity].
  intros p uri content options base Hkey. cbv zeta.
  rewrite writeFile_run; cbv zeta. rewrite Hkey, namePartOf_dotCmd.
  destruct (negb (create options) && _); [discriminate|].
  destruct (_ && negb (overwrite options)); [discriminate|].
  intros _. cbn [after snd _commands]. rewrite get_set_same.
  eexists; split; [reflexivity|].
  pose proof (looksExplicit_iff base (Utf8.decode content)) as Hexp.
  destruct (looksExplicit base (Utf8.decode content)).
  - split; [reflexivity|].
    intros Hor. destruct (proj1 Hexp eq_refl) as [H1 H2]. tauto.
  - split.
    { intros Hand. apply Hexp in Hand. discriminate. }
    intros _. split; [| split].
    + intros existing n -> Hn Hne. rewrite Hn.
      destruct n; [congruence | reflexivity].
    + intros existing -> [Hn | Hn]; now rewrite Hn.
    + now intros ->.
Qed.

Lemma writeFile_name_rule_witness :
  exists nm,
    JSMap.get (JS.lit "Release build" +++ dotCmd)
      (_commands (after (writeFile (fileUri "/Release build.cmd")
                           (Utf8.encode (JS.lit "npm run build"))
                           (mkWriteOptions true false) buildStore)))
    = Some (mkItem nm (Utf8.decode (Utf8.encode (JS.lit "npm run build")))).
Proof.
  destruct (proj1 writeFile_name_rule buildStore
              (fileUri "/Release build.cmd")
              (Utf8.encode (JS.lit "npm run build"))
              (mkWriteOptions true false) (JS.lit "Release build")
              eq_refl eq_refl) as [nm [Hget _]].
  exists nm. exact Hget.
Defined.

(** ** C8: import skips what the store already has *)

Lemma isDuplicate_false (current : list CommandItem) (c : CommandItem) :
  isDuplicate current c = false <-> notInStore current c.
Proof.
  unfold notInStore. rewrite <- not_true_iff_false.
  unfold isDuplicate. rewrite existsb_exists.
  split; intros H [e [Hin He]]; apply H; exists e; split; auto.
  - destruct He as [Hn Hc].
    apply andb_true_iff; split;
      [now apply JS_opt_eqb_eq | now apply JS_eqb_eq].
  - apply andb_true_iff in He as [Hn Hc].
    split; [now apply JS_opt_eqb_eq | now apply JS_eqb_eq].
Qed.

Lemma selectNew_filter (current imported acc : list CommandItem) (n : nat) :
  selectNew current imported acc n
  = (acc ++ filter (fun c => negb (isDuplicate current c)) imported,
     n + length (filter (fun c => negb (isDuplicate current c)) imported)).
Proof.
  revert acc n; induction imported as [|c imported IH]; intros acc n; simpl.
  - now rewrite app_nil_r, Nat.add_0_r.
  - destruct (negb (isDuplicate current c)); rewrite IH; simpl.
    + rewrite <- app_assoc. f_equal. lia.
    + reflexivity.
Qed.

Lemma importCommands_run (p : Provider) (imported : list CommandItem) :
  let new :=
    filter (fun c => negb (isDuplicate (JSMap.values (_commands p)) c))
      imported in
  importCommands imported p =
  match imported, new with
  | [], _ => (Returned NoCommandsFound, p)
  | _ :: _, [] => (Returned NoNewCommands, p)
  | _ :: _, _ :: _ =>
      (Returned (ImportedNew (length new)),
       after (forEach new addCommandItem p))
  end.
Proof.
  cbv zeta. unfold importCommands, try_catch.
  destruct imported as [|c0 imported']; [reflexivity|].
  set (imported := c0 :: imported').
  change (length imported =? 0) with false; cbv iota.
  unfold getAllCommandItems, bind at 1, gets; cbv beta iota.
  rewrite selectNew_filter. cbn [app Nat.add].
  destruct (filter _ imported) as [|c new'] eqn:Enew; [reflexivity|].
  change (0 <? length (c :: new')) with true; cbv iota.
  destruct (forEach_addCommandItem (c :: new') p) as [Hout _].
  unfold bind, ret.
  destruct (forEach (c :: new') addCommandItem p) as [[[]| |] p'];
    try discriminate Hout.
  reflexivity.
Qed.

Lemma importCommands_values (p : Provider) (imported : list CommandItem) :
  (exists notice, outcome (importCommands imported p) = Returned notice) /\
  JSMap.values (_commands (after (importCommands imported p)))
  = JSMap.values (_commands p)
    ++ filter (fun c => negb (isDuplicate (JSMap.values (_commands p)) c))
         imported.
Proof.
  rewrite importCommands_run; cbv zeta.
  destruct imported as [|c0 imported'].
  - simpl. rewrite app_nil_r. eauto.
  - set (imported := c0 :: imported').
    destruct (filter _ imported) as [|c new'] eqn:Enew.
    + simpl. rewrite app_nil_r. eauto.
    + split; [simpl; eauto|].
      destruct (forEach_addCommandItem (c :: new') p)
        as [_ [_ [keys [Hlen Hcmds]]]].
      unfold after at 1; cbn [snd]. rewrite Hcmds, values_app. f_equal.
      unfold JSMap.values.
      clear - Hlen. revert keys Hlen.
      generalize (c :: new') as new.
      induction new as [|x new IH]; intros [|k keys] Hlen;
        simpl in *; try discriminate; auto.
      f_equal. apply IH. lia.
Qed.

(** C8: an import returns, and the records it adds to the store are, in
    order, exactly the records of the imported list that no record of the
    store before the import equals in both name and command. So importing
    a list of one record that the store already has adds nothing, and
    importing one new record together with one the store already has adds
    exactly the new one. *)
Theorem importCommands_dedup (p : Provider) (imported : list CommandItem) :
  let current := JSMap.values (_commands p) in
  (exists notice, outcome (importCommands imported p) = Returned notice) /\
  (exists added,
      JSMap.values (_commands (after (importCommands imported p)))
      = current ++ added /\
      added = filter (fun c => negb (isDuplicate current c)) imported /\
      forall c, In c added <-> (In c imported /\ notInStore current c)) /\
  (forall c, In c current ->
     JSMap.values (_commands (after (importCommands [c] p))) = current) /\
  (forall c d, In c current -> notInStore current d ->
     JSMap.values (_commands (after (importCommands [d; c] p)))
     = current ++ [d] /\
     JSMap.values (_commands (after (importCommands [c; d] p)))
     = current ++ [d]).
Proof.
  cbv zeta.
  assert (Hdup : forall c, In c (JSMap.values (_commands p)) ->
                           isDuplicate (JSMap.values (_commands p)) c = true).
  { intros c Hin. apply not_false_iff_true. intros H.
    apply isDuplicate_false in H. apply H. exists c; auto. }
  split; [apply importCommands_values|]. split; [| split].
  - eexists. split; [apply importCommands_values|]. split; [reflexivity|].
    intros c. rewrite filter_In, negb_true_iff, isDuplicate_false. tauto.
  - intros c Hin. rewrite (proj2 (importCommands_values p [c])).
    simpl. rewrite (Hdup c Hin). simpl. now rewrite app_nil_r.
  - intros c d Hin Hnew. apply isDuplicate_false in Hnew.
    rewrite (proj2 (importCommands_values p [d; c])),
            (proj2 (importCommands_values p [c; d])).
    simpl. rewrite (Hdup c Hin), Hnew. simpl. auto.
Qed.

Lemma importCommands_dedup_witness :
  JSMap.values (_commands (after (importCommands [gitStatusItem; buildItem]
                                    buildStore)))
  = JSMap.values (_commands buildStore) ++ [gitStatusItem].
Proof.
  apply (importCommands_dedup buildStore []).
  - left; reflexivity.
  - intros [e [[<-|[]] [_ Hc]]]. discriminate Hc.
Defined.

(** ** The map invariant *)

(** Loading builds a map with pairwise distinct keys, whatever the snapshot. *)
Lemma load_wf (stored : list CommandItem) :
  forall p,
    JSMap.wf (_commands p) ->
    JSMap.wf (_commands (after (forEach stored
      (fun cmd => commands_update (JSMap.set (generateFileName cmd) cmd)) p))).
Proof.
  induction stored as [|c stored IH]; intros p Hwf; simpl; [assumption|].
  unfold bind, commands_update at 1, modify. apply IH.
  cbn [_commands]. now apply wf_set.
Qed.

Lemma newProvider_wf (stored : option (list CommandItem)) :
  JSMap.wf (_commands (newProvider stored)).
Proof.
  unfold newProvider, loadCommandsFromGlobalState, globalState_get,
    bind, gets, commands_update at 1, modify.
  cbn [_commands globalState fired].
  apply load_wf. constructor.
Qed.

(** Every method that changes the map keeps its keys pairwise distinct. *)
Lemma methods_keep_wf (p : Provider) :
  JSMap.wf (_commands p) ->
  (forall uri content options,
      JSMap.wf (_commands (after (writeFile uri content options p)))) /\
  (forall uri recursive,
      JSMap.wf (_commands (after (delete uri recursive p)))) /\
  (forall a b ov, JSMap.wf (_commands (after (rename a b ov p)))) /\
  (forall item, JSMap.wf (_commands (after (addCommandItem item p)))) /\
  (forall imported, JSMap.wf (_commands (after (importCommands imported p)))).
Proof.
  intros Hwf. repeat split.
  - intros uri content options. rewrite writeFile_run; cbv zeta.
    destruct (negb (create options) && _); [assumption|].
    destruct (_ && negb (overwrite options)); [assumption|].
    now apply wf_set.
  - intros uri recursive. rewrite delete_run; cbv zeta.
    destruct (JSMap.has _ (_commands p)); [| assumption].
    now apply wf_delete.
  - intros a b ov. rewrite rename_run; cbv zeta.
    destruct (JSMap.get _ (_commands p)); [| assumption].
    destruct (JSMap.has _ (_commands p) && negb ov); [assumption|].
    now apply wf_set, wf_delete.
  - intros item. now apply addCommandItem_wf.
  - intros imported. rewrite importCommands_run; cbv zeta.
    destruct imported; [assumption|].
    destruct (filter _ _) eqn:E; [assumption|].
    unfold after at 1; cbn [snd].
    now apply forEach_addCommandItem.
Qed.

(** ** C1: saving and loading again *)

(** What does hold: a provider started on the snapshot a [save] wrote has
    the saved records, in the saved order, whenever their generated names
    are pairwise distinct. *)
Lemma load_loop (stored : list CommandItem) :
  forall (m : JSMap.t CommandItem) gs log,
    NoDup (JSMap.keys m ++ map generateFileName stored) ->
    forEach stored
      (fun cmd => commands_update (JSMap.set (generateFileName cmd) cmd))
      (mkProvider m gs log)
    = (Returned tt,
       mkProvider (m ++ map (fun c => (generateFileName c, c)) stored) gs log).
Proof.
  induction stored as [|c stored IH]; intros m gs log Hnd; simpl.
  - now rewrite app_nil_r.
  - unfold bind, commands_update at 1, modify.
    cbn [_commands globalState fired].
    assert (Hfree : JSMap.has (generateFileName c) m = false).
    { apply has_false_notin. apply NoDup_remove_2 in Hnd.
      intros Hin; apply Hnd. apply in_or_app; now left. }
    rewrite (set_fresh _ _ _ Hfree), IH.
    + now rewrite <- app_assoc.
    + unfold JSMap.keys in *. rewrite map_app, <- app_assoc. exact Hnd.
Qed.

Lemma load_distinct_names (stored : list CommandItem) :
  NoDup (map generateFileName stored) ->
  _commands (newProvider (Some stored))
  = map (fun c => (generateFileName c, c)) stored.
Proof.
  intros Hnd.
  unfold newProvider, loadCommandsFromGlobalState, globalState_get,
    bind, gets, commands_update at 1, modify.
  cbn [_commands globalState fired].
  now rewrite (load_loop stored (JSMap.empty CommandItem) _ _ Hnd).
Qed.

Lemma save_then_load_distinct_names (p : Provider) :
  NoDup (map generateFileName (JSMap.values (_commands p))) ->
  let saved := after (saveCommandsToGlobalState p) in
  JSMap.values (_commands (newProvider (globalState saved)))
  = JSMap.values (_commands p).
Proof.
  intros Hnd. cbv zeta.
  change (globalState (after (saveCommandsToGlobalState p)))
    with (Some (JSMap.values (_commands p))).
  rewrite (load_distinct_names _ Hnd).
  unfold JSMap.values. rewrite map_map. simpl. apply map_id.
Qed.

(** C1 on the code: after [Build] has been added twice, with two different
    commands, the store holds both records under [Build.cmd] and
    [Build-1.cmd] and [save] writes both; a provider started on that
    snapshot recomputes [Build.cmd] for each and keeps only the second. *)
Theorem reload_drops_colliding_record :
  let saved := after (saveCommandsToGlobalState twoBuildsStore) in
  let reloaded := newProvider (globalState saved) in
  JSMap.keys (_commands twoBuildsStore)
  = [JS.lit "Build.cmd"; JS.lit "Build-1.cmd"] /\
  JSMap.values (_commands twoBuildsStore) = [buildItem; buildProdItem] /\
  globalState saved = Some [buildItem; buildProdItem] /\
  _commands reloaded = [(JS.lit "Build.cmd", buildProdItem)] /\
  ~ In buildItem (JSMap.values (_commands reloaded)).
Proof.
  cbv zeta. repeat (split; [reflexivity|]).
  intros [H|[]]. discriminate H.
Qed.

(* ================================================================= *)
(** * Further properties of the code *)

(** ** The UTF-8 codec on well-formed text *)

Ltac divlia := zify; Z.to_euclidean_division_equations; lia.

(** Settles the comparisons of the goal whose outcome the context decides. *)
Ltac decide_tests :=
  repeat match goal with
  | |- context [(?a <=? ?b)%N] =>
      first [ replace (a <=? b)%N with true
                by (symmetry; apply N.leb_le; divlia)
            | replace (a <=? b)%N with false
                by (symmetry; apply N.leb_gt; divlia) ]
  | |- context [(?a <? ?b)%N] =>
      first [ replace (a <? b)%N with true
                by (symmetry; apply N.ltb_lt; divlia)
            | replace (a <? b)%N with false
                by (symmetry; apply N.ltb_ge; divlia) ]
  end; cbn [andb orb negb].

Lemma to_N_byte_of (n : N) : (n < 256)%N -> Byte.to_N (Utf8.byte_of n) = n.
Proof.
  intros H. unfold Utf8.byte_of. rewrite N.mod_small by assumption.
  destruct (Byte.of_N n) eqn:E.
  - now apply Byte.to_of_N.
  - apply Byte.of_N_None_iff in E. lia.
Qed.

Lemma lor_shiftl_6 (a r : N) :
  (r < 64)%N -> N.lor (N.shiftl a 6) r = (a * 64 + r)%N.
Proof.
  intros Hr. rewrite N.shiftl_mul_pow2. change (2 ^ 6)%N with 64%N.
  assert (Hdisj : N.land (a * 64) r = 0%N).
  { apply N.bits_inj_0. intros n. rewrite N.land_spec.
    destruct (N.lt_ge_cases n 6) as [Hn|Hn].
    - change 64%N with (2 ^ 6)%N. now rewrite N.mul_pow2_bits_low.
    - destruct (N.eq_dec r 0) as [->|Hr0];
        [now rewrite N.bits_0, andb_false_r|].
      rewrite (N.bits_above_log2 r n), andb_false_r; [reflexivity|].
      apply N.lt_le_trans with 6%N; [| assumption].
      apply N.log2_lt_pow2; [lia | exact Hr]. }
  now rewrite <- N.lxor_lor, <- N.add_nocarry_lxor.
Qed.

Lemma step_continue (r : nat) (c lo hi b : N) :
  (lo <= b <= hi)%N ->
  Utf8.step (Utf8.mkDstate (S r) c lo hi) b
  = match r with
    | O => (Utf8.dinit, Utf8.emit (N.lor (N.shiftl c 6) (N.land b 0x3F)))
    | S _ =>
        (Utf8.mkDstate r (N.lor (N.shiftl c 6) (N.land b 0x3F)) 0x80 0xBF, [])
    end.
Proof.
  intros H. unfold Utf8.step.
  cbn [Utf8.remaining Utf8.lower Utf8.upper Utf8.codepoint].
  decide_tests. reflexivity.
Qed.

(** The bytes written for a scalar value are read back as that value. *)
Lemma decode_encode_cp (c : N) (rest : list byte) :
  scalar c ->
  Utf8.decode_from Utf8.dinit (Utf8.encode_cp c ++ rest)
  = Utf8.emit c ++ Utf8.decode_from Utf8.dinit rest.
Proof.
  intros Hc. unfold scalar in Hc. unfold Utf8.encode_cp.
  destruct (N.ltb_spec c 0x80); [| destruct (N.ltb_spec c 0x800);
    [| destruct (N.ltb_spec c 0x10000)]];
  cbn [app Utf8.decode_from]; rewrite !to_N_byte_of by divlia;
  change (Utf8.step Utf8.dinit) with Utf8.start;
  unfold Utf8.start; decide_tests.
  - unfold Utf8.emit. decide_tests. reflexivity.
  - cbn [app Utf8.decode_from]. rewrite step_continue by divlia.
    change 0x1F%N with (N.ones 5). change 0x3F%N with (N.ones 6).
    rewrite !N.land_ones.
    change (2 ^ 5)%N with 32%N. change (2 ^ 6)%N with 64%N.
    rewrite lor_shiftl_6 by divlia.
    match goal with
    | |- context [Utf8.emit ?x] => replace x with c by divlia
    end.
    reflexivity.
  - destruct (N.eqb_spec (0xE0 + c / 0x1000) 0xE0);
      destruct (N.eqb_spec (0xE0 + c / 0x1000) 0xED);
      cbn [app Utf8.decode_from];
      rewrite step_continue by divlia;
      cbn [app Utf8.decode_from];
      rewrite step_continue by divlia;
      change 0x0F%N with (N.ones 4); change 0x3F%N with (N.ones 6);
      rewrite !N.land_ones;
      change (2 ^ 4)%N with 16%N; change (2 ^ 6)%N with 64%N;
      rewrite !lor_shiftl_6 by divlia;
      match goal with
      | |- context [Utf8.emit ?x] => replace x with c by divlia
      end;
      reflexivity.
  - destruct (N.eqb_spec (0xF0 + c / 0x40000) 0xF0);
      destruct (N.eqb_spec (0xF0 + c / 0x40000) 0xF4);
      cbn [app Utf8.decode_from];
      rewrite step_continue by divlia;
      cbn [app Utf8.decode_from];
      rewrite step_continue by divlia;
      cbn [app Utf8.decode_from];
      rewrite step_continue by divlia;
      change 0x07%N with (N.ones 3); change 0x3F%N with (N.ones 6);
      rewrite !N.land_ones;
      change (2 ^ 3)%N with 8%N; change (2 ^ 6)%N with 64%N;
      rewrite !lor_shiftl_6 by divlia;
      match goal with
      | |- context [Utf8.emit ?x] => replace x with c by divlia
      end;
      reflexivity.
Qed.

(** Decoding what was encoded gives the text back, for well-formed text. *)
Lemma decode_encode (s : JS.str) :
  wellFormed s = true -> Utf8.decode (Utf8.encode s) = s.
Proof.
  unfold Utf8.decode.
  remember (length s) as n eqn:Hn.
  assert (Hle : length s <= n) by lia. clear Hn.
  revert s Hle. induction n as [|n IH]; intros s Hle Hwf.
  - destruct s; [reflexivity | simpl in Hle; lia].
  - destruct s as [|c rest]; [reflexivity|].
    simpl in Hwf, Hle. cbn [Utf8.encode].
    destruct (Utf8.isHigh c) eqn:Ehigh.
    + destruct rest as [|d rest']; [discriminate|].
      apply andb_true_iff in Hwf as [Elow Hwf]. rewrite Elow.
      unfold Utf8.isHigh, Utf8.isLow in Ehigh, Elow.
      apply andb_true_iff in Ehigh as [H1 H2].
      apply andb_true_iff in Elow as [H3 H4].
      apply N.leb_le in H1, H2, H3, H4.
      rewrite decode_encode_cp by (unfold scalar; lia).
      rewrite IH by (simpl in Hle; lia || assumption).
      unfold Utf8.emit. decide_tests.
      replace (0xD800 + (0x10000 + (c - 0xD800) * 0x400 + (d - 0xDC00)
                         - 0x10000) / 0x400)%N with c by divlia.
      replace (0xDC00 + (0x10000 + (c - 0xD800) * 0x400 + (d - 0xDC00)
                         - 0x10000) mod 0x400)%N with d by divlia.
      reflexivity.
    + apply andb_true_iff in Hwf as [Hwf Hrest].
      apply andb_true_iff in Hwf as [Elow Hlt].
      apply negb_true_iff in Elow. rewrite Elow.
      apply N.ltb_lt in Hlt.
      unfold Utf8.isHigh, Utf8.isLow in Ehigh, Elow.
      apply andb_false_iff in Ehigh, Elow.
      rewrite !N.leb_gt in Ehigh, Elow.
      rewrite decode_encode_cp by (unfold scalar; lia).
      rewrite IH by (lia || assumption).
      unfold Utf8.emit. decide_tests. reflexivity.
Qed.

(** ** Writing, then reading *)

(** After a [writeFile] that returned, [readFile] of the same URI returns
    the bytes of the decoded text; when the content written is the encoding
    of well-formed text, these are exactly the bytes written. *)
Theorem writeFile_then_readFile (p : Provider) (uri : Uri)
    (content : list byte) (options : WriteOptions) :
  outcome (writeFile uri content options p) = Returned tt ->
  outcome (readFile uri (after (writeFile uri content options p)))
  = Returned (Utf8.encode (Utf8.decode content)) /\
  (forall text, wellFormed text = true -> content = Utf8.encode text ->
     outcome (readFile uri (after (writeFile uri content options p)))
     = Returned content).
Proof.
  intros Hret.
  assert (Hread :
    outcome (readFile uri (after (writeFile uri content options p)))
    = Returned (Utf8.encode (Utf8.decode content))).
  { revert Hret. rewrite writeFile_run; cbv zeta.
    destruct (negb (create options) && _); [discriminate|].
    destruct (_ && negb (overwrite options)); [discriminate|].
    intros _. cbn [after snd]. rewrite readFile_run. cbn [_commands].
    now rewrite get_set_same. }
  split; [exact Hread|].
  intros text Hwf ->. rewrite Hread. now rewrite decode_encode.
Qed.

Lemma writeFile_then_readFile_witness :
  outcome (readFile (fileUri "/Build.cmd")
             (after (writeFile (fileUri "/Build.cmd")
                       (Utf8.encode (JS.lit "npm run build:all"))
                       (mkWriteOptions true true) buildStore)))
  = Returned (Utf8.encode (JS.lit "npm run build:all")).
Proof.
  apply (proj2 (writeFile_then_readFile buildStore (fileUri "/Build.cmd")
                  (Utf8.encode (JS.lit "npm run build:all"))
                  (mkWriteOptions true true) eq_refl)
           (JS.lit "npm run build:all")); reflexivity.
Defined.

(** ** [stat] and [readFile] agree *)

(** The root is a directory of size 0. For any other path, [stat] returns
    a file whose size is the number of bytes [readFile] returns, and throws
    [FileNotFound] exactly when [readFile] does. *)
Theorem stat_agrees_with_readFile (p : Provider) (uri : Uri)
    (ctimeNow mtimeNow : N) :
  (path uri = JS.lit "/" ->
   outcome (stat ctimeNow mtimeNow uri p)
   = Returned (mkStat Directory ctimeNow mtimeNow 0)) /\
  (path uri <> JS.lit "/" ->
   (forall bytes,
       outcome (readFile uri p) = Returned bytes ->
       outcome (stat ctimeNow mtimeNow uri p)
       = Returned (mkStat File ctimeNow mtimeNow (length bytes))) /\
   (outcome (readFile uri p) = Thrown (FileNotFound uri)
    <-> outcome (stat ctimeNow mtimeNow uri p) = Thrown (FileNotFound uri)) /\
   (JSMap.has (JS.substringFrom 1 (path uri)) (_commands p) = false
    <-> outcome (stat ctimeNow mtimeNow uri p) = Thrown (FileNotFound uri))).
Proof.
  rewrite stat_run, readFile_run, has_get. split.
  - intros ->. reflexivity.
  - intros Hne. apply JS_eqb_neq in Hne. rewrite Hne.
    destruct (JSMap.get _ (_commands p)); cbn [outcome fst isDefined].
    + repeat split; try discriminate.
      intros bytes H; inversion H; reflexivity.
    + repeat split; try discriminate; auto.
Qed.

Lemma stat_agrees_with_readFile_witness :
  outcome (stat 0 0 (fileUri "/Build.cmd") buildStore)
  = Returned (mkStat File 0 0 (length (Utf8.encode (JS.lit "npm run build")))).
Proof.
  apply (stat_agrees_with_readFile buildStore (fileUri "/Build.cmd") 0 0).
  - discriminate.
  - reflexivity.
Defined.

(** ** The directory listing *)

(** [readDirectory] of the root returns the keys of the map in insertion
    order, each tagged as a file, and these are exactly the names
    [readFile] can read; any other path throws [FileNotADirectory]. *)
Theorem readDirectory_lists_readable (p : Provider) (uri : Uri) :
  (path uri = JS.lit "/" ->
   outcome (readDirectory uri p)
   = Returned (map (fun key => (key, File)) (JSMap.keys (_commands p))) /\
   forall u : Uri,
     In (JS.substringFrom 1 (path u), File)
        (map (fun key => (key, File)) (JSMap.keys (_commands p)))
     <-> exists bytes, outcome (readFile u p) = Returned bytes) /\
  (path uri <> JS.lit "/" ->
   outcome (readDirectory uri p) = Thrown (FileNotADirectory uri)).
Proof.
  unfold readDirectory. split.
  - intros ->. split; [reflexivity|].
    intros u. rewrite readFile_run, in_map_iff.
    pose proof (has_In (JS.substringFrom 1 (path u)) (_commands p))
      as Hin.
    rewrite has_get in Hin.
    destruct (JSMap.get _ (_commands p)); cbn [isDefined outcome fst] in *.
    + split; [eauto|]. intros _.
      exists (JS.substringFrom 1 (path u)); split; [reflexivity|].
      now apply Hin.
    + split; [| intros [bytes H]; discriminate].
      intros [k [Hk Hink]]. inversion Hk; subst.
      apply Hin in Hink. discriminate.
  - intros Hne. apply JS_eqb_neq in Hne. now rewrite Hne.
Qed.

Lemma readDirectory_lists_readable_witness :
  outcome (readDirectory (fileUri "/") twoCommandsStore)
  = Returned [(JS.lit "Build.cmd", File); (JS.lit "git_status.cmd", File)].
Proof.
  apply (readDirectory_lists_readable twoCommandsStore (fileUri "/")).
  reflexivity.
Defined.

(** ** More on maps *)

Lemma keys_delete (V : Type) (k : JS.str) (m : JSMap.t V) :
  JSMap.keys (JSMap.delete k m)
  = filter (fun k' => negb (JS.eqb k' k)) (JSMap.keys m).
Proof.
  unfold JSMap.keys, JSMap.delete.
  induction m as [|[k' v'] m IH]; simpl; [reflexivity|].
  destruct (JS.eqb k' k); simpl; now rewrite IH.
Qed.

Lemma has_set_other (V : Type) (k k' : JS.str) (v : V) (m : JSMap.t V) :
  k <> k' -> JSMap.has k' (JSMap.set k v m) = JSMap.has k' m.
Proof. intros H. now rewrite !has_get, get_set_other. Qed.

Lemma has_delete_other (V : Type) (k k' : JS.str) (m : JSMap.t V) :
  k <> k' -> JSMap.has k' (JSMap.delete k m) = JSMap.has k' m.
Proof. intros H. now rewrite !has_get, get_delete_other. Qed.

Lemma get_app_fresh (V : Type) (k key : JS.str) (v : V) (m : JSMap.t V) :
  JSMap.has key m = false ->
  JSMap.get k (m ++ [(key, v)])
  = if JS.eqb key k then Some v else JSMap.get k m.
Proof.
  intros Hfree. rewrite <- (set_fresh _ _ _ Hfree).
  destruct (JS.eqb key k) eqn:E.
  - apply JS_eqb_eq in E; subst. apply get_set_same.
  - apply JS_eqb_neq in E. now apply get_set_other.
Qed.

(** ** [delete] *)

(** [delete] of a missing key throws [FileNotFound] and changes nothing.
    [delete] of a present key returns; afterwards the file cannot be read
    or deleted again, the listing is the old one without that key, and
    every other entry is as before. *)
Theorem delete_behaviour (p : Provider) (uri : Uri) (recursive : bool) :
  let fileName := JS.substringFrom 1 (path uri) in
  (JSMap.has fileName (_commands p) = false ->
   delete uri recursive p = (Thrown (FileNotFound uri), p)) /\
  (JSMap.has fileName (_commands p) = true ->
   let p' := after (delete uri recursive p) in
   outcome (delete uri recursive p) = Returned tt /\
   outcome (readFile uri p') = Thrown (FileNotFound uri) /\
   outcome (delete uri recursive p') = Thrown (FileNotFound uri) /\
   JSMap.keys (_commands p')
   = filter (fun k => negb (JS.eqb k fileName)) (JSMap.keys (_commands p)) /\
   (forall k, k <> fileName ->
      JSMap.get k (_commands p') = JSMap.get k (_commands p))).
Proof.
  cbv zeta. rewrite delete_run; cbv zeta. split; intros Hhas; rewrite Hhas.
  - reflexivity.
  - cbn [after snd outcome fst]. rewrite delete_run, readFile_run; cbv zeta.
    cbn [_commands]. rewrite has_get, get_delete_same. cbn [isDefined].
    repeat split; [apply keys_delete|].
    intros k Hne. apply get_delete_other. congruence.
Qed.

Lemma delete_behaviour_witness :
  outcome (readFile (fileUri "/Build.cmd")
             (after (delete (fileUri "/Build.cmd") false twoCommandsStore)))
  = Thrown (FileNotFound (fileUri "/Build.cmd")).
Proof.
  apply (delete_behaviour twoCommandsStore (fileUri "/Build.cmd") false).
  reflexivity.
Defined.

(** ** Persistence and notification *)

(** Closes a case of [persistsOrRefuses] once the method has been run. *)
Ltac settle_outcome :=
  split; [intros H; try discriminate H; reflexivity
         | intros u [H|H]; try discriminate H; reflexivity].

(** Whenever [writeFile], [delete], [rename] or [addCommandItem] returns,
    the persisted snapshot is exactly the records of the map; whenever one
    of them throws [FileNotFound] or [FileExists], the map, the snapshot
    and the event log are as before. [createDirectory] always throws
    [NoPermissions] and changes nothing. The update of the snapshot is
    taken to resolve; what a rejected update leaves behind is not stated
    here. *)
Theorem mutations_persist_or_refuse (p : Provider) :
  (forall uri content options,
      persistsOrRefuses p (writeFile uri content options p)) /\
  (forall uri recursive, persistsOrRefuses p (delete uri recursive p)) /\
  (forall a b ov, persistsOrRefuses p (rename a b ov p)) /\
  (forall item, persistsOrRefuses p (addCommandItem item p)) /\
  (forall uri,
      exists message,
        createDirectory uri p = (Thrown (NoPermissions message), p)).
Proof.
  unfold persistsOrRefuses, inSync.
  split; [| split; [| split; [| split]]].
  - intros uri content options. rewrite writeFile_run; cbv zeta.
    destruct (negb (create options) && _); [settle_outcome|].
    destruct (_ && negb (overwrite options)); settle_outcome.
  - intros uri recursive. rewrite delete_run; cbv zeta.
    destruct (JSMap.has _ (_commands p)); settle_outcome.
  - intros a b ov. rewrite rename_run; cbv zeta.
    destruct (JSMap.get _ (_commands p)); [| settle_outcome].
    destruct (JSMap.has _ (_commands p) && negb ov); settle_outcome.
  - intros item. destruct (addCommandItem_run p item) as [key [-> _]].
    split; [| intros u [H|H]; discriminate H].
    intros _. cbn [after snd globalState _commands].
    now rewrite values_app.
  - intros uri. eexists. reflexivity.
Qed.

Lemma mutations_persist_or_refuse_witness :
  inSync (after (writeFile (fileUri "/Build.cmd")
                   (Utf8.encode (JS.lit "make"))
                   (mkWriteOptions false false) buildStore)).
Proof.
  apply (mutations_persist_or_refuse buildStore). reflexivity.
Defined.

(** A mutation that returns has fired exactly two batches: first the root
    change of the save, then its own event. [rename] reports the old URI
    deleted before the new one created, and [addCommandItem] reports the
    URI parsed from the scheme and the name the record was filed under. *)
Theorem mutations_fire_after_save (p : Provider) :
  (forall uri content options,
      outcome (writeFile uri content options p) = Returned tt ->
      fired (after (writeFile uri content options p))
      = fired p ++ [rootChanged; [mkEvent Changed (GivenUri uri)]]) /\
  (forall uri recursive,
      outcome (delete uri recursive p) = Returned tt ->
      fired (after (delete uri recursive p))
      = fired p ++ [rootChanged; [mkEvent Deleted (GivenUri uri)]]) /\
  (forall a b ov,
      outcome (rename a b ov p) = Returned tt ->
      fired (after (rename a b ov p))
      = fired p ++ [rootChanged; [mkEvent Deleted (GivenUri a);
                                  mkEvent Created (GivenUri b)]]) /\
  (forall item,
      exists key,
        JSMap.get key (_commands (after (addCommandItem item p))) = Some item /\
        fired (after (addCommandItem item p))
        = fired p ++ [rootChanged;
                      [mkEvent Created
                         (ParsedUri (COMMAND_FILE_SCHEME +++ JS.lit ":/"
                                       +++ key))]]).
Proof.
  repeat split.
  - intros uri content options. rewrite writeFile_run; cbv zeta.
    destruct (negb (create options) && _); [discriminate|].
    destruct (_ && negb (overwrite options)); [discriminate|].
    reflexivity.
  - intros uri recursive. rewrite delete_run; cbv zeta.
    destruct (JSMap.has _ (_commands p)); [| discriminate].
    reflexivity.
  - intros a b ov. rewrite rename_run; cbv zeta.
    destruct (JSMap.get _ (_commands p)); [| discriminate].
    destruct (JSMap.has _ (_commands p) && negb ov); [discriminate|].
    reflexivity.
  - intros item.
    destruct (addCommandItem_run p item) as [key [-> [Hfree _]]].
    exists key. cbn [after snd _commands fired]. split; [| reflexivity].
    rewrite get_app_fresh by exact Hfree. now rewrite JS_eqb_refl.
Qed.

Lemma mutations_fire_after_save_witness :
  fired (after (rename (fileUri "/Build.cmd") (fileUri "/Deploy.cmd") false
                  buildStore))
  = fired buildStore
    ++ [rootChanged; [mkEvent Deleted (GivenUri (fileUri "/Build.cmd"));
                      mkEvent Created (GivenUri (fileUri "/Deploy.cmd"))]].
Proof.
  apply (mutations_fire_after_save buildStore). reflexivity.
Defined.

(** ** What the mutations leave alone *)

(** [addCommandItem] never overwrites: the name it picks was free, every
    entry of the map is as before, the new record goes last in the listing
    and can be read back under the new name. *)
Theorem addCommandItem_never_overwrites (p : Provider) (item : CommandItem) :
  exists key,
    JSMap.has key (_commands p) = false /\
    JSMap.keys (_commands (after (addCommandItem item p)))
    = JSMap.keys (_commands p) ++ [key] /\
    (forall k, JSMap.has k (_commands p) = true ->
       JSMap.get k (_commands (after (addCommandItem item p)))
       = JSMap.get k (_commands p)) /\
    (forall u, JS.substringFrom 1 (path u) = key ->
       outcome (readFile u (after (addCommandItem item p)))
       = Returned (Utf8.encode (command item))).
Proof.
  destruct (addCommandItem_run p item) as [key [Hrun [Hfree _]]].
  exists key. rewrite Hrun. cbn [after snd _commands].
  split; [exact Hfree|]. split; [| split].
  - unfold JSMap.keys. now rewrite map_app.
  - intros k Hk. rewrite get_app_fresh by exact Hfree.
    destruct (JS.eqb key k) eqn:E; [| reflexivity].
    apply JS_eqb_eq in E; subst. congruence.
  - intros u <-. rewrite readFile_run. cbn [_commands].
    rewrite get_app_fresh by exact Hfree. now rewrite JS_eqb_refl.
Qed.

(** A [writeFile] that returns touches one entry only: a file already
    there keeps its place in the listing, a new file goes last, and every
    other entry is as before. *)
Theorem writeFile_touches_one_entry (p : Provider) (uri : Uri)
    (content : list byte) (options : WriteOptions) :
  outcome (writeFile uri content options p) = Returned tt ->
  let fileName := JS.substringFrom 1 (path uri) in
  let p' := after (writeFile uri content options p) in
  JSMap.keys (_commands p')
  = (if JSMap.has fileName (_commands p)
     then JSMap.keys (_commands p)
     else JSMap.keys (_commands p) ++ [fileName]) /\
  (forall k, k <> fileName ->
     JSMap.get k (_commands p') = JSMap.get k (_commands p)).
Proof.
  cbv zeta. rewrite writeFile_run; cbv zeta.
  destruct (negb (create options) && _); [discriminate|].
  destruct (_ && negb (overwrite options)); [discriminate|].
  intros _. cbn [after snd _commands]. split; [apply keys_set|].
  intros k Hne. apply get_set_other. congruence.
Qed.

Lemma writeFile_touches_one_entry_witness :
  JSMap.keys (_commands (after (writeFile (fileUri "/Build.cmd")
                                  (Utf8.encode (JS.lit "make"))
                                  (mkWriteOptions false false)
                                  twoCommandsStore)))
  = JSMap.keys (_commands twoCommandsStore).
Proof.
  apply (writeFile_touches_one_entry twoCommandsStore (fileUri "/Build.cmd")
           (Utf8.encode (JS.lit "make")) (mkWriteOptions false false)).
  reflexivity.
Defined.

(** A [rename] between two different keys that returns removes the old key
    from the listing, keeps the new key in place if it was there and puts
    it last otherwise, and leaves every other entry as before. *)
Theorem rename_touches_two_entries (p : Provider) (a b : Uri) (ov : bool) :
  outcome (rename a b ov p) = Returned tt ->
  let oldFileName := JS.substringFrom 1 (path a) in
  let newFileName := JS.substringFrom 1 (path b) in
  oldFileName <> newFileName ->
  let p' := after (rename a b ov p) in
  let kept :=
    filter (fun k => negb (JS.eqb k oldFileName)) (JSMap.keys (_commands p)) in
  JSMap.has oldFileName (_commands p') = false /\
  JSMap.keys (_commands p')
  = (if JSMap.has newFileName (_commands p) then kept
     else kept ++ [newFileName]) /\
  (forall k, k <> oldFileName -> k <> newFileName ->
     JSMap.get k (_commands p') = JSMap.get k (_commands p)).
Proof.
  cbv zeta. rewrite rename_run; cbv zeta.
  destruct (JSMap.get (JS.substringFrom 1 (path a)) (_commands p));
    [| discriminate].
  destruct (JSMap.has (JS.substringFrom 1 (path b)) (_commands p) && negb ov);
    [discriminate|].
  intros _ Hne. cbn [after snd _commands]. split; [| split].
  - rewrite has_set_other by congruence.
    now rewrite has_get, get_delete_same.
  - rewrite keys_set, has_delete_other, keys_delete by assumption.
    reflexivity.
  - intros k H1 H2. rewrite get_set_other by congruence.
    apply get_delete_other. congruence.
Qed.

Lemma rename_touches_two_entries_witness :
  JSMap.keys (_commands (after (rename (fileUri "/Build.cmd")
                                  (fileUri "/Deploy.cmd") false
                                  twoCommandsStore)))
  = [JS.lit "git_status.cmd"; JS.lit "Deploy.cmd"].
Proof.
  apply (rename_touches_two_entries twoCommandsStore (fileUri "/Build.cmd")
           (fileUri "/Deploy.cmd") false).
  - reflexivity.
  - vm_compute; discriminate.
Defined.

(** ** Loading *)

Lemma load_loop_fold (stored : list CommandItem) :
  forall p,
    forEach stored
      (fun cmd => commands_update (JSMap.set (generateFileName cmd) cmd)) p
    = (Returned tt,
       mkProvider
         (fold_left (fun m c => JSMap.set (generateFileName c) c m) stored
            (_commands p))
         (globalState p) (fired p)).
Proof.
  induction stored as [|c stored IH]; intros p; simpl.
  - now destruct p.
  - unfold bind, commands_update at 1, modify. now rewrite IH.
Qed.

Lemma newProvider_run (stored : option (list CommandItem)) :
  newProvider stored
  = mkProvider
      (fold_left (fun m c => JSMap.set (generateFileName c) c m)
         (match stored with Some l => l | None => [] end) [])
      stored [].
Proof.
  unfold newProvider, loadCommandsFromGlobalState, globalState_get,
    bind, gets, commands_update at 1, modify.
  cbn [_commands globalState fired]. now rewrite load_loop_fold.
Qed.

Lemma find_snoc {A} (f : A -> bool) (l : list A) (x : A) :
  find f (l ++ [x])
  = match find f l with
    | Some y => Some y
    | None => if f x then Some x else None
    end.
Proof.
  induction l as [|y l IH]; simpl; [reflexivity|].
  destruct (f y); auto.
Qed.

Lemma get_load_fold (stored : list CommandItem) :
  forall (m : JSMap.t CommandItem) (k : JS.str),
    JSMap.get k
      (fold_left (fun m c => JSMap.set (generateFileName c) c m) stored m)
    = match find (fun c => JS.eqb (generateFileName c) k) (rev stored) with
      | Some c => Some c
      | None => JSMap.get k m
      end.
Proof.
  induction stored as [|c stored IH]; intros m k; simpl; [reflexivity|].
  rewrite IH, find_snoc.
  destruct (find _ (rev stored)); [reflexivity|].
  destruct (JS.eqb (generateFileName c) k) eqn:E.
  - apply JS_eqb_eq in E; subst. apply get_set_same.
  - apply JS_eqb_neq in E. now apply get_set_other.
Qed.

Lemma keyedByName_set (m : JSMap.t CommandItem) (c : CommandItem) :
  keyedByName m -> keyedByName (JSMap.set (generateFileName c) c m).
Proof.
  unfold keyedByName. induction m as [|[k v] m IH]; simpl; intros H.
  - repeat constructor.
  - inversion H as [|? ? Hk Hm]; subst. simpl in Hk.
    destruct (JS.eqb k (generateFileName c)) eqn:E.
    + apply JS_eqb_eq in E. constructor; [exact E | exact Hm].
    + constructor; [exact Hk | now apply IH].
Qed.

Lemma keyedByName_fold (stored : list CommandItem) :
  forall m, keyedByName m ->
    keyedByName
      (fold_left (fun m c => JSMap.set (generateFileName c) c m) stored m).
Proof.
  induction stored as [|c stored IH]; intros m H; simpl; [assumption|].
  apply IH. now apply keyedByName_set.
Qed.

Lemma newProvider_keyedByName (stored : option (list CommandItem)) :
  keyedByName (_commands (newProvider stored)).
Proof.
  rewrite newProvider_run. cbn [_commands].
  apply keyedByName_fold. constructor.
Qed.

(** Loading is last-wins: the started provider holds, under each name, the
    last record of the snapshot that generates that name, and nothing under
    any other name; every entry is filed under its generated name; the
    snapshot is left as found and no event is fired. With no snapshot the
    store is empty. *)
Theorem load_last_wins (stored : option (list CommandItem)) :
  let l := match stored with Some l => l | None => [] end in
  let p := newProvider stored in
  (forall k,
      JSMap.get k (_commands p)
      = find (fun c => JS.eqb (generateFileName c) k) (rev l)) /\
  keyedByName (_commands p) /\
  globalState p = stored /\
  fired p = [] /\
  _commands (newProvider None) = [].
Proof.
  cbv zeta. rewrite newProvider_run. cbn [_commands globalState fired].
  split; [| split; [| repeat split]].
  - intros k. rewrite get_load_fold. cbn [JSMap.get].
    now destruct (find _ _).
  - apply keyedByName_fold. constructor.
Qed.

(** ** Saving and loading again, where names do not collide *)

Lemma keyedByName_names (m : JSMap.t CommandItem) :
  keyedByName m ->
  map generateFileName (JSMap.values m) = JSMap.keys m /\
  map (fun c => (generateFileName c, c)) (JSMap.values m) = m.
Proof.
  unfold keyedByName, JSMap.values, JSMap.keys.
  induction m as [|[k v] m IH]; simpl; intros H; [auto|].
  inversion H as [|? ? Hk Hm]; subst. simpl in Hk. subst k.
  destruct (IH Hm) as [-> ->]. auto.
Qed.

(** A store whose entries are all filed under their generated names comes
    back from [save] and a fresh load with the same entries under the same
    keys in the same order; a freshly loaded store is such a store, so a
    second reload changes nothing. *)
Theorem reload_is_stable :
  (forall p : Provider,
      JSMap.wf (_commands p) -> keyedByName (_commands p) ->
      _commands
        (newProvider (globalState (after (saveCommandsToGlobalState p))))
      = _commands p) /\
  (forall stored : option (list CommandItem),
      JSMap.wf (_commands (newProvider stored)) /\
      keyedByName (_commands (newProvider stored))).
Proof.
  split.
  - intros p Hwf Hkeyed.
    change (globalState (after (saveCommandsToGlobalState p)))
      with (Some (JSMap.values (_commands p))).
    destruct (keyedByName_names Hkeyed) as [Hnames Hentries].
    rewrite load_distinct_names; [exact Hentries|].
    rewrite Hnames. exact Hwf.
  - intros stored. split; [apply newProvider_wf|].
    apply newProvider_keyedByName.
Qed.

Lemma reload_is_stable_witness :
  _commands
    (newProvider (globalState (after (saveCommandsToGlobalState
                                        twoCommandsStore))))
  = _commands twoCommandsStore.
Proof.
  apply (proj1 reload_is_stable twoCommandsStore).
  - constructor; [intros [H|[]]; discriminate H|].
    constructor; [intros [] | constructor].
  - repeat constructor.
Defined.

Lemma save_then_load_distinct_names_witness :
  JSMap.values
    (_commands (newProvider (globalState (after (saveCommandsToGlobalState
                                                   twoCommandsStore)))))
  = JSMap.values (_commands twoCommandsStore).
Proof.
  apply (save_then_load_distinct_names twoCommandsStore).
  constructor; [intros [H|[]]; discriminate H|].
  constructor; [intros [] | constructor].
Defined.

(** ** Importing twice *)

Lemma isDuplicate_self (current : list CommandItem) (c : CommandItem) :
  In c current -> isDuplicate current c = true.
Proof.
  intros Hin. unfold isDuplicate. apply existsb_exists.
  exists c; split; [assumption|].
  apply andb_true_iff; split;
    [now apply JS_opt_eqb_eq | now apply JS_eqb_eq].
Qed.

Lemma isDuplicate_app (l l' : list CommandItem) (c : CommandItem) :
  isDuplicate (l ++ l') c = isDuplicate l c || isDuplicate l' c.
Proof. unfold isDuplicate. apply existsb_app. Qed.

Lemma filter_none {A} (f : A -> bool) (l : list A) :
  (forall x, In x l -> f x = false) -> filter f l = [].
Proof.
  induction l as [|x l IH]; intros H; simpl; [reflexivity|].
  rewrite (H x) by now left. apply IH. intros y Hy. apply H. now right.
Qed.

(** Importing the same list a second time adds nothing: after the first
    import every record of the list has an equal in the store. Within one
    import the list is not compared with itself: a record the store lacks
    is added as many times as the list has it. *)
Theorem importCommands_twice (p : Provider) (imported : list CommandItem) :
  let p1 := after (importCommands imported p) in
  JSMap.values (_commands (after (importCommands imported p1)))
  = JSMap.values (_commands p1) /\
  (forall c n,
      notInStore (JSMap.values (_commands p)) c ->
      JSMap.values (_commands (after (importCommands (repeat c n) p)))
      = JSMap.values (_commands p) ++ repeat c n).
Proof.
  cbv zeta. split.
  - rewrite (proj2 (importCommands_values (after (importCommands imported p))
                      imported)).
    rewrite (proj2 (importCommands_values p imported)).
    set (current := JSMap.values (_commands p)).
    set (added := filter _ imported).
    replace (filter _ imported) with (@nil CommandItem);
      [now rewrite app_nil_r|].
    symmetry. apply filter_none. intros c Hin.
    apply negb_false_iff. rewrite isDuplicate_app.
    destruct (isDuplicate current c) eqn:E; [reflexivity|].
    apply isDuplicate_self. apply filter_In. now rewrite E.
  - intros c n Hnew. apply isDuplicate_false in Hnew.
    rewrite (proj2 (importCommands_values p (repeat c n))). f_equal.
    induction n as [|n IH]; simpl; [reflexivity|].
    now rewrite Hnew, IH.
Qed.

Lemma importCommands_twice_witness :
  JSMap.values (_commands (after (importCommands (repeat gitStatusItem 2)
                                    buildStore)))
  = JSMap.values (_commands buildStore) ++ repeat gitStatusItem 2.
Proof.
  apply (importCommands_twice buildStore []).
  intros [e [[<-|[]] [_ Hc]]]. discriminate Hc.
Defined.

(** ** The shape of generated names *)

Lemma isSlugChar_not_space (c : N) :
  JS.isSlugChar c = true -> JS.isWhiteSpace c = false.
Proof.
  intros Hs. apply not_true_iff_false. intros Hw. revert Hs Hw.
  unfold JS.isSlugChar, JS.isAlnum, JS.isWhiteSpace.
  rewrite !orb_true_iff, !andb_true_iff, !N.eqb_eq, !N.leb_le. lia.
Qed.

Lemma matchSlug_not_blank (s : JS.str) :
  JS.matchSlug s = true -> blank s = false.
Proof.
  unfold JS.matchSlug, blank. rewrite !andb_true_iff.
  intros [[Hlen _] Hall]. apply Nat.leb_le in Hlen.
  destruct s as [|c s]; [simpl in Hlen; lia|].
  simpl in *. apply andb_true_iff in Hall as [Hc _].
  now rewrite (isSlugChar_not_space _ Hc).
Qed.

Lemma matchSlug_replaceNonAlnum (cmd : JS.str) :
  JS.replaceNonAlnum (JS.substring 0 20 cmd) <> [] ->
  JS.matchSlug (JS.replaceNonAlnum (JS.substring 0 20 cmd)) = true.
Proof.
  change (JS.substring 0 20 cmd) with (firstn 20 cmd).
  intros Hne. unfold JS.matchSlug, JS.replaceNonAlnum in *.
  rewrite length_map.
  assert (Hlen : length (firstn 20 cmd) <= 20) by apply firstn_le_length.
  repeat (apply andb_true_iff; split).
  - apply Nat.leb_le. destruct (firstn 20 cmd); [now elim Hne | simpl; lia].
  - now apply Nat.leb_le.
  - apply forallb_forall. intros c Hin.
    apply in_map_iff in Hin as [d [<- _]].
    unfold JS.isSlugChar. destruct (JS.isAlnum d) eqn:E.
    + now rewrite E.
    + apply orb_true_r.
Qed.

Lemma looksExplicit_matchSlug (base text : JS.str) :
  JS.matchSlug base = true -> looksExplicit base text = false.
Proof. unfold looksExplicit. now intros ->. Qed.

Lemma generateFileName_named (item : CommandItem) :
  hasDisplayName item = true ->
  exists n,
    name item = Some n /\ n <> [] /\ blank n = false /\
    JS.truthy n = true /\ generateFileName item = n +++ dotCmd.
Proof.
  intros Hdn. unfold generateFileName, baseNameOf. rewrite Hdn.
  destruct item as [[n|] cmd]; [| discriminate].
  cbn [name]. pose proof Hdn as Hb. rewrite hasDisplayName_blank in Hb.
  apply negb_true_iff in Hb.
  destruct n as [|c n]; [discriminate|].
  exists (c :: n). cbn [length Nat.eqb].
  repeat split; try assumption. discriminate.
Qed.

Lemma generateFileName_unnamed (item : CommandItem) :
  hasDisplayName item = false ->
  exists base,
    generateFileName item = base +++ dotCmd /\ base <> [] /\
    JS.matchSlug base = true.
Proof.
  intros Hdn. unfold generateFileName, baseNameOf. rewrite Hdn.
  set (slug := JS.replaceNonAlnum (JS.substring 0 20 (command item))).
  destruct slug as [|c s] eqn:E.
  - exists (JS.lit "untitled_command"). repeat split. discriminate.
  - exists (c :: s). cbn [length Nat.eqb].
    repeat split; [discriminate|].
    rewrite <- E. apply matchSlug_replaceNonAlnum.
    fold slug. rewrite E. discriminate.
Qed.

(** Every generated name is a non-empty base followed by [.cmd], and the
    base is what [writeFile] and [rename] take as the name part. For a
    record with a display name the base is that name; for any other record
    the base matches the pattern of 1 to 20 alphanumeric or underscore
    characters, so that it is never taken for a name the user chose. *)
Theorem generateFileName_shape (item : CommandItem) :
  exists base,
    generateFileName item = base +++ dotCmd /\
    base <> [] /\
    namePartOf (generateFileName item) = base /\
    (hasDisplayName item = true ->
     name item = Some base /\ blank base = false) /\
    (hasDisplayName item = false ->
     slugPattern base /\ forall text, looksExplicit base text = false).
Proof.
  destruct (hasDisplayName item) eqn:Hdn.
  - destruct (generateFileName_named item Hdn)
      as [n [Hn [Hne [Hb [_ Hgen]]]]].
    exists n. rewrite Hgen. split; [reflexivity|]. split; [exact Hne|].
    split; [apply namePartOf_dotCmd|]. split; [auto | discriminate].
  - destruct (generateFileName_unnamed item Hdn) as [base [Hgen [Hne Hm]]].
    exists base. rewrite Hgen. split; [reflexivity|]. split; [exact Hne|].
    split; [apply namePartOf_dotCmd|].
    split; [discriminate|]. intros _.
    split; [now apply matchSlug_slugPattern|].
    intros text. now apply looksExplicit_matchSlug.
Qed.

(** ** Editing a command through its file *)

Lemma writeFile_at_generated_name (p : Provider) (uri : Uri)
    (content : list byte) (options : WriteOptions) (item : CommandItem) :
  JS.substringFrom 1 (path uri) = generateFileName item ->
  JSMap.get (generateFileName item) (_commands p) = Some item ->
  name item <> Some [] ->
  (create options = true -> overwrite options = true) ->
  outcome (writeFile uri content options p) = Returned tt /\
  _commands (after (writeFile uri content options p))
  = JSMap.set (generateFileName item)
      (mkItem (name item) (Utf8.decode content)) (_commands p).
Proof.
  intros Hkey Hget Hname Hopts.
  rewrite writeFile_run; cbv zeta. rewrite Hkey, Hget.
  cbn [isDefined negb]. rewrite andb_false_r. cbn [andb].
  assert (Hno : create options && negb (overwrite options) = false).
  { destruct (create options); [| reflexivity].
    now rewrite (Hopts eq_refl). }
  rewrite Hno. cbn [outcome after fst snd _commands].
  split; [reflexivity|]. do 2 f_equal.
  destruct (hasDisplayName item) eqn:Hdn.
  - destruct (generateFileName_named item Hdn)
      as [n [Hn [_ [_ [Htruthy ->]]]]].
    rewrite namePartOf_dotCmd, Hn.
    destruct (looksExplicit n (Utf8.decode content)); [reflexivity|].
    cbn [JS.opt_truthy]. now rewrite Htruthy.
  - destruct (generateFileName_unnamed item Hdn) as [base [-> [_ Hm]]].
    rewrite namePartOf_dotCmd. rewrite looksExplicit_matchSlug by exact Hm.
    destruct (name item) as [[|c n]|] eqn:En; [| reflexivity..].
    exfalso. now apply Hname.
Qed.

(** Writing the file of a record that is stored under its generated name
    changes the command text and keeps the name, whatever the new text,
    provided the name is not the empty string. *)
Theorem edit_keeps_name (p : Provider) (uri : Uri) (content : list byte)
    (options : WriteOptions) (item : CommandItem) :
  JS.substringFrom 1 (path uri) = generateFileName item ->
  JSMap.get (generateFileName item) (_commands p) = Some item ->
  name item <> Some [] ->
  (create options = true -> overwrite options = true) ->
  outcome (writeFile uri content options p) = Returned tt /\
  JSMap.get (generateFileName item)
    (_commands (after (writeFile uri content options p)))
  = Some (mkItem (name item) (Utf8.decode content)).
Proof.
  intros Hkey Hget Hname Hopts.
  destruct (writeFile_at_generated_name p uri content options
              Hkey Hget Hname Hopts) as [Hout ->].
  split; [exact Hout | apply get_set_same].
Qed.

Lemma edit_keeps_name_witness :
  JSMap.get (generateFileName buildItem)
    (_commands (after (writeFile (fileUri "/Build.cmd")
                         (Utf8.encode (JS.lit "Build everything"))
                         (mkWriteOptions false false) buildStore)))
  = Some (mkItem (name buildItem)
            (Utf8.decode (Utf8.encode (JS.lit "Build everything")))).
Proof.
  apply (@edit_keeps_name buildStore (fileUri "/Build.cmd")
           (Utf8.encode (JS.lit "Build everything"))
           (mkWriteOptions false false) buildItem).
  - reflexivity.
  - reflexivity.
  - discriminate.
  - discriminate.
Defined.

(** ** The name [rename] stores *)

Lemma trim_eqb_blank (s : JS.str) : JS.eqb (JS.trim s) [] = blank s.
Proof.
  unfold blank. destruct (forallb JS.isWhiteSpace s) eqn:E.
  - apply trim_nil in E. now rewrite E.
  - apply JS_eqb_neq. intros H. apply trim_nil in H. congruence.
Qed.

(** After a [rename] to [<base>.cmd] that returned, the record under the
    new key has the old command text. Its name is the old name when the
    base is the old base or matches the pattern of 1 to 20 alphanumeric or
    underscore characters; it is [<base>] when the base does not match the
    pattern and the command does not start with it, and then, unless the
    base is blank, the new key is the name generated from the record; in
    the remaining case (the command starts with the base) the name is
    dropped if the base is blank and kept otherwise. *)
Theorem rename_name_rule (p : Provider) (a b : Uri) (ov : bool)
    (base : JS.str) (oldCommand : CommandItem) :
  JS.substringFrom 1 (path b) = base +++ dotCmd ->
  JSMap.get (JS.substringFrom 1 (path a)) (_commands p) = Some oldCommand ->
  outcome (rename a b ov p) = Returned tt ->
  let oldBase := namePartOf (JS.substringFrom 1 (path a)) in
  let text := command oldCommand in
  exists nm,
    JSMap.get (base +++ dotCmd) (_commands (after (rename a b ov p)))
    = Some (mkItem nm text) /\
    (base = oldBase -> nm = name oldCommand) /\
    (slugPattern base -> nm = name oldCommand) /\
    (base <> oldBase -> ~ slugPattern base -> ~ startsWithText text base ->
     nm = Some base /\
     (blank base = false ->
      generateFileName (mkItem nm text) = base +++ dotCmd)) /\
    (base <> oldBase -> ~ slugPattern base -> startsWithText text base ->
     nm = if blank base then None else name oldCommand).
Proof.
  intros Hnew Hold. cbv zeta. rewrite rename_run; cbv zeta.
  rewrite Hold, Hnew, namePartOf_dotCmd.
  destruct (JSMap.has (base +++ dotCmd) (_commands p) && negb ov);
    [discriminate|].
  intros _. cbn [after snd _commands]. rewrite get_set_same.
  eexists; split; [reflexivity|].
  rewrite trim_eqb_blank.
  pose proof (looksExplicit_iff base (command oldCommand)) as Hexp.
  pose proof (matchSlug_slugPattern base) as Hslug.
  destruct (JS.eqb base (namePartOf (JS.substringFrom 1 (path a)))) eqn:Eb.
  - apply JS_eqb_eq in Eb. cbn [negb].
    split; [reflexivity|]. split; [reflexivity|].
    split; intros Hne; now elim Hne.
  - apply JS_eqb_neq in Eb. cbn [negb].
    split; [intros Heq; now elim Eb|].
    destruct (looksExplicit base (command oldCommand)) eqn:El.
    + destruct (proj1 Hexp eq_refl) as [Hns Hnp].
      split; [intros Hs; now elim Hns|].
      split; [| intros _ _ Hp; now elim Hnp].
      intros _ _ _. split; [reflexivity|].
      intros Hb. unfold generateFileName, baseNameOf.
      rewrite hasDisplayName_blank, Hb. cbn [negb name].
      destruct base; [discriminate Hb | reflexivity].
    + split.
      { intros Hs. apply Hslug in Hs.
        now rewrite (matchSlug_not_blank _ Hs). }
      split.
      { intros _ Hns Hnp.
        assert (Habs : false = true) by (apply Hexp; split; assumption).
        discriminate Habs. }
      intros _ _ _. reflexivity.
Qed.

Lemma rename_name_rule_witness :
  exists nm,
    JSMap.get (JS.lit "Release build" +++ dotCmd)
      (_commands (after (rename (fileUri "/Build.cmd")
                           (fileUri "/Release build.cmd") false buildStore)))
    = Some (mkItem nm (command buildItem)).
Proof.
  destruct (@rename_name_rule buildStore (fileUri "/Build.cmd")
              (fileUri "/Release build.cmd") false (JS.lit "Release build")
              buildItem eq_refl eq_refl eq_refl) as [nm [Hget _]].
  exists nm. exact Hget.
Defined.

(** ** The tree view after start-up *)

Lemma get_of_entry (V : Type) (m : JSMap.t V) (k : JS.str) (v : V) :
  JSMap.wf m -> In (k, v) m -> JSMap.get k m = Some v.
Proof.
  unfold JSMap.wf, JSMap.keys.
  induction m as [|[k' v'] m IH]; simpl; intros Hwf Hin; [contradiction|].
  inversion Hwf as [|? ? Hnin Hnd]; subst.
  destruct Hin as [Heq | Hin].
  - inversion Heq; subst. now rewrite JS_eqb_refl.
  - destruct (JS.eqb k' k) eqn:E; [| now apply IH].
    apply JS_eqb_eq in E; subst. exfalso. apply Hnin.
    apply in_map_iff. exists (k, v); auto.
Qed.

(** Right after start-up [getChildren] returns one node per stored record,
    in order, without touching the provider. Each node's file name is the
    key its record is stored under, unless the record has no usable name
    and a command that leaves no base: then the node's file name is [.cmd],
    which is not a key of the store. Below a node there are no children. *)
Theorem getChildren_after_load (stored : option (list CommandItem)) :
  let p := newProvider stored in
  exists nodes,
    getChildren None p = (Returned nodes, p) /\
    map node_item nodes = JSMap.values (_commands p) /\
    (forall node, In node nodes ->
       node_tooltip node = command (node_item node) /\
       (baseNameOf (node_item node) <> [] ->
        JSMap.get (node_fileName node) (_commands p)
        = Some (node_item node)) /\
       (baseNameOf (node_item node) = [] ->
        node_fileName node = dotCmd /\
        JSMap.get (node_fileName node) (_commands p) = None)) /\
    (forall node q, getChildren (Some node) q = (Returned [], q)).
Proof.
  cbv zeta. pose proof (newProvider_wf stored) as Hwf.
  pose proof (newProvider_keyedByName stored) as Hkeyed.
  set (p := newProvider stored) in *.
  eexists. split; [reflexivity|]. split; [| split; [| reflexivity]].
  - rewrite map_map. cbn [node_item newCommandNode]. apply map_id.
  - intros node Hin. apply in_map_iff in Hin as [item [<- Hitem]].
    cbn [node_item node_fileName node_tooltip newCommandNode].
    split; [reflexivity|].
    assert (Hname :
      (if hasDisplayName item
       then match name item with Some n => n | None => [] end +++ dotCmd
       else JS.replaceNonAlnum (JS.substring 0 20 (command item)) +++ dotCmd)
      = baseNameOf item +++ dotCmd).
    { unfold baseNameOf. now destruct (hasDisplayName item). }
    rewrite Hname. clear Hname.
    unfold JSMap.values in Hitem.
    apply in_map_iff in Hitem as [[k c] [Hc Hentry]]. simpl in Hc. subst c.
    unfold keyedByName in Hkeyed. rewrite Forall_forall in Hkeyed.
    pose proof (Hkeyed _ Hentry) as Hk. simpl in Hk.
    split.
    + intros Hbase.
      assert (Hgen : generateFileName item = baseNameOf item +++ dotCmd).
      { unfold generateFileName.
        destruct (baseNameOf item); [now elim Hbase | reflexivity]. }
      rewrite <- Hgen, <- Hk. now apply get_of_entry.
    + intros ->. split; [reflexivity|].
      destruct (JSMap.get ([] +++ dotCmd) (_commands p)) as [c|] eqn:Eget;
        [| reflexivity].
      exfalso.
      assert (Hhas : JSMap.has ([] +++ dotCmd) (_commands p) = true)
        by (rewrite has_get, Eget; reflexivity).
      apply has_In in Hhas. unfold JSMap.keys in Hhas.
      apply in_map_iff in Hhas as [[k' c'] [Hk' Hentry']]. simpl in Hk'.
      pose proof (Hkeyed _ Hentry') as Hgen. simpl in Hgen.
      rewrite Hk' in Hgen.
      destruct (hasDisplayName c') eqn:Hdn.
      * destruct (generateFileName_named c' Hdn) as [n [_ [Hne [_ [_ Hn]]]]].
        rewrite Hn in Hgen. apply (app_inv_tail dotCmd [] n) in Hgen.
        congruence.
      * destruct (generateFileName_unnamed c' Hdn) as [b [Hb [Hne _]]].
        rewrite Hb in Hgen. apply (app_inv_tail dotCmd [] b) in Hgen.
        congruence.
Qed.

(** ** Creating and duplicating *)

(** [createNewCommand] does nothing when the command prompt is dismissed;
    otherwise it returns and appends one record with the command entered,
    whose name is the name entered, or unset when that was dismissed or
    left empty: it never stores the empty string as a name.
    [duplicateCommand] does nothing when its prompt is dismissed; otherwise
    it returns and appends one record with the command of the node's record
    and the name exactly as entered, the empty string included. Neither
    changes a record already in the store. *)
Theorem createNewCommand_duplicateCommand (p : Provider) :
  (forall nm, createNewCommand None nm p = (Returned tt, p)) /\
  (forall content nm,
      exists stored,
        outcome (createNewCommand (Some content) nm p) = Returned tt /\
        JSMap.values (_commands (after (createNewCommand (Some content) nm p)))
        = JSMap.values (_commands p) ++ [stored] /\
        command stored = content /\
        name stored <> Some [] /\
        (forall n, nm = Some n -> n <> [] -> name stored = Some n) /\
        (nm = None \/ nm = Some [] -> name stored = None)) /\
  (forall node, duplicateCommand node None p = (Returned tt, p)) /\
  (forall node n,
      outcome (duplicateCommand node (Some n) p) = Returned tt /\
      JSMap.values (_commands (after (duplicateCommand node (Some n) p)))
      = JSMap.values (_commands p)
        ++ [mkItem (Some n) (command (node_item node))]).
Proof.
  split; [reflexivity|]. split; [| split; [reflexivity|]].
  - intros content nm. unfold createNewCommand.
    destruct (addCommandItem_run p
                (mkItem (if JS.opt_truthy nm then nm else None) content))
      as [key [-> _]].
    eexists. split; [reflexivity|].
    cbn [after snd _commands]. rewrite values_app.
    split; [reflexivity|]. cbn [command name].
    split; [reflexivity|].
    destruct nm as [[|c n]|]; cbn [JS.opt_truthy JS.truthy].
    + repeat split; try discriminate. intros n H Hne. inversion H; subst.
      now elim Hne.
    + repeat split; try discriminate.
      * intros n' H _. exact H.
      * intros [H|H]; discriminate H.
    + repeat split; try discriminate.
  - intros node n. unfold duplicateCommand.
    destruct (addCommandItem_run p (mkItem (Some n) (command (node_item node))))
      as [key [-> _]].
    cbn [after snd _commands outcome fst]. now rewrite values_app.
Qed.

(** ** Saving a file that was not changed *)

Lemma set_same (V : Type) (k : JS.str) (v : V) (m : JSMap.t V) :
  JSMap.get k m = Some v -> JSMap.set k v m = m.
Proof.
  induction m as [|[k' v'] m IH]; simpl; [discriminate|].
  destruct (JS.eqb k' k); intros H.
  - now inversion H.
  - now rewrite IH.
Qed.

(** Writing back the bytes [readFile] returned leaves the map as it was,
    for a record stored under its generated name whose command is
    well-formed text and whose name is not the empty string. *)
Theorem save_unchanged_file (p : Provider) (uri : Uri) (item : CommandItem)
    (options : WriteOptions) (bytes : list byte) :
  JS.substringFrom 1 (path uri) = generateFileName item ->
  JSMap.get (generateFileName item) (_commands p) = Some item ->
  name item <> Some [] ->
  wellFormed (command item) = true ->
  (create options = true -> overwrite options = true) ->
  outcome (readFile uri p) = Returned bytes ->
  outcome (writeFile uri bytes options p) = Returned tt /\
  _commands (after (writeFile uri bytes options p)) = _commands p.
Proof.
  intros Hkey Hget Hname Hwf Hopts Hread.
  rewrite readFile_run, Hkey, Hget in Hread.
  cbn [outcome fst] in Hread. inversion Hread as [Hbytes].
  destruct (writeFile_at_generated_name p uri
              (Utf8.encode (command item)) options Hkey Hget Hname Hopts)
    as [Hout ->].
  split; [exact Hout|].
  rewrite decode_encode by exact Hwf.
  apply set_same. rewrite Hget. now destruct item.
Qed.

Lemma save_unchanged_file_witness :
  _commands (after (writeFile (fileUri "/Build.cmd")
                      (Utf8.encode (JS.lit "npm run build"))
                      (mkWriteOptions false false) buildStore))
  = _commands buildStore.
Proof.
  apply (@save_unchanged_file buildStore (fileUri "/Build.cmd") buildItem
           (mkWriteOptions false false)
           (Utf8.encode (JS.lit "npm run build")));
    try reflexivity; discriminate.
Defined.

(** ** When [rename] fails *)

(** [rename] throws [FileNotFound] for the old URI exactly when the old key
    is absent, whatever the new key; it throws [FileExists] for the new URI
    exactly when the old key is present, the new key is present too and
    [overwrite] is false; in every other case it returns. A failed [rename]
    changes nothing. *)
Theorem rename_failures (p : Provider) (a b : Uri) (ov : bool) :
  let oldPresent := JSMap.has (JS.substringFrom 1 (path a)) (_commands p) in
  let newPresent := JSMap.has (JS.substringFrom 1 (path b)) (_commands p) in
  (oldPresent = false <-> rename a b ov p = (Thrown (FileNotFound a), p)) /\
  (oldPresent = true /\ newPresent = true /\ ov = false
   <-> rename a b ov p = (Thrown (FileExists b), p)) /\
  (oldPresent = true /\ (newPresent = false \/ ov = true)
   <-> outcome (rename a b ov p) = Returned tt).
Proof.
  cbv zeta. rewrite rename_run; cbv zeta.
  rewrite (has_get (JS.substringFrom 1 (path a))).
  destruct (JSMap.get (JS.substringFrom 1 (path a)) (_commands p));
    cbn [isDefined].
  - destruct (JSMap.has (JS.substringFrom 1 (path b)) (_commands p));
      destruct ov; cbn [andb negb outcome fst];
      repeat split; try discriminate; try tauto;
      intros H; decompose [and or] H; discriminate.
  - repeat split; try discriminate; try tauto;
      intros H; decompose [and or] H; discriminate.
Qed.

(** ** What an import reports *)

(** An import of an empty list reports that no commands were found; any
    other import reports the number of records it added, which is the
    number by which the store grew, or, when that is zero, that nothing new
    was imported. An import that adds nothing leaves the provider exactly
    as it was: nothing is saved and no event is fired. It never fails. *)
Theorem importCommands_reports_count (p : Provider)
    (imported : list CommandItem) :
  let r := importCommands imported p in
  let grown :=
    length (JSMap.values (_commands (after r)))
    - length (JSMap.values (_commands p)) in
  outcome r
  = Returned (match imported with
              | [] => NoCommandsFound
              | _ :: _ => if grown =? 0 then NoNewCommands
                          else ImportedNew grown
              end) /\
  (grown = 0 -> after r = p).
Proof.
  cbv zeta.
  rewrite (proj2 (importCommands_values p imported)), length_app.
  replace (length (JSMap.values (_commands p)) + _
           - length (JSMap.values (_commands p)))
    with (length (filter (fun c =>
              negb (isDuplicate (JSMap.values (_commands p)) c)) imported))
    by lia.
  rewrite importCommands_run; cbv zeta.
  destruct imported as [|c0 imported']; [split; reflexivity|].
  destruct (filter _ (c0 :: imported')) as [|c new'];
    [split; reflexivity|].
  split; [reflexivity | discriminate].
Qed.
